(** * dreamflow: the time-gated quiz server (src/server.js)

    A shallow embedding of the two route handlers of [src/server.js], of
    the duration helpers they use and of the record store they talk to,
    together with the properties the design document states about them.

    Numbers.  JavaScript numbers are modelled exactly: integers as [Z],
    possibly fractional millisecond counts and the hour of the day as
    canonical rationals [Qc].  [Math.floor] is [Qfloor], [%] is [Z.rem],
    [Math.floor (a / b)] on integers is [Z.div].  Rounding of IEEE doubles
    is not modelled.  The total time of a submission is a rational or
    [NaN], which the loop produces when it reads a property inherited
    from [Object.prototype].

    Requests.  A field of the body of a submission is absent, one of the
    falsy values [null], [false], [0] and the empty string, or a value of
    the type the interface gives it: a string for the email, an object
    with string values for the answers, an object with number values for
    the times. *)

From Stdlib Require Import ZArith QArith Qcanon Qround Ascii String List.
From Stdlib Require Import Sorting Permutation Lia.
From stdpp Require Import base tactics option list numbers strings pretty.
From stdpp Require Import fin_maps gmap.

Local Open Scope Z_scope.

(** ** Duration codec *)

Module Duration.

(** The character class [\d]. *)
Definition is_digit (c : ascii) : bool :=
  let n := nat_of_ascii c in (Nat.leb 48 n && Nat.leb n 57)%bool.

Definition digit_value (c : ascii) : Z := Z.of_nat (nat_of_ascii c) - 48.

(** Greedy [\d*]: the longest run of digits at the head of [s], and what
    follows it. *)
Fixpoint span_digits (s : string) : string * string :=
  match s with
  | String c s' =>
      if is_digit c
      then let (ds, r) := span_digits s' in (String c ds, r)
      else ("", s)
  | EmptyString => ("", "")
  end.

Definition is_empty (s : string) : bool :=
  match s with EmptyString => true | _ => false end.

(** The next character, when it is [c]. *)
Definition expect (c : ascii) (s : string) : option string :=
  match s with
  | String a rest => if Ascii.eqb a c then Some rest else None
  | EmptyString => None
  end.

(** One attempt of the pattern of line 25 at the head of [s]: digits, a
    colon, digits, a colon, digits, then an optional dot and further
    digits; the three capture groups on success.  A run of digits that
    must be followed by a colon can only be the longest one, so the
    greedy choice is the only one the backtracking matcher succeeds
    with. *)
Definition match_here (s : string) : option (string * string * string) :=
  let (g1, r1) := span_digits s in
  if is_empty g1 then None else
  match expect ":" r1 with
  | None => None
  | Some r2 =>
      let (g2, r3) := span_digits r2 in
      if is_empty g2 then None else
      match expect ":" r3 with
      | None => None
      | Some r4 =>
          let (whole, r5) := span_digits r4 in
          if is_empty whole then None else
          match expect "." r5 with
          | Some r6 =>
              let (frac, _) := span_digits r6 in
              Some (g1, g2, whole +:+ "." +:+ frac)
          | None => Some (g1, g2, whole)
          end
      end
  end.

(** [interval.match(...)]: the leftmost position at which the pattern
    matches. *)
Fixpoint timeMatch (s : string) : option (string * string * string) :=
  match match_here s with
  | Some g => Some g
  | None =>
      match s with
      | String _ s' => timeMatch s'
      | EmptyString => None
      end
  end.

Fixpoint parse_digits (acc : Z) (s : string) : Z :=
  match s with
  | String c s' => parse_digits (acc * 10 + digit_value c) s'
  | EmptyString => acc
  end.

(** [parseInt] on a capture group [\d+]: the decimal value of the leading
    digits. *)
Definition parseInt (s : string) : Z := parse_digits 0 (fst (span_digits s)).

(** [parseFloat] on the third capture group: digits, an optional dot,
    further digits. *)
Definition parseFloat (s : string) : Qc :=
  let (whole, r) := span_digits s in
  match expect "." r with
  | Some r' =>
      let (frac, _) := span_digits r' in
      (Qc_of_Z (parse_digits 0 whole)
       + Qc_of_Z (parse_digits 0 frac)
         / Qc_of_Z (10 ^ Z.of_nat (String.length frac)))%Qc
  | None => Qc_of_Z (parse_digits 0 whole)
  end.

(** [intervalToMs], lines 21-33.  [None] is a [null] or [undefined]
    column value. *)
Definition intervalToMs (interval : option string) : Qc :=
  match interval with
  | None => 0%Qc
  | Some "" => 0%Qc
  | Some s =>
      match timeMatch s with
      | Some (g1, g2, g3) =>
          let hours := parseInt g1 in
          let minutes := parseInt g2 in
          let seconds := parseFloat g3 in
          ((Qc_of_Z (hours * 3600 + minutes * 60) + seconds)
           * Qc_of_Z 1000)%Qc
      | None => 0%Qc
      end
  end.

(** [String.prototype.padStart]. *)
Fixpoint repeat_char (n : nat) (c : ascii) : string :=
  match n with O => "" | S n' => String c (repeat_char n' c) end.

Definition padStart (n : nat) (c : ascii) (s : string) : string :=
  repeat_char (n - String.length s) c +:+ s.

(** [Math.floor] of a rational. *)
Definition floor (q : Qc) : Z := Qfloor q.

(** The formatting block of lines 160-164, repeated at lines 178-182:
    a millisecond count rendered as [HH:MM:SS]. *)
Definition intervalString (totalTimeMs : Qc) : string :=
  let totalSeconds := floor (totalTimeMs / Qc_of_Z 1000)%Qc in
  let hours := totalSeconds / 3600 in
  let minutes := Z.rem totalSeconds 3600 / 60 in
  let seconds := Z.rem totalSeconds 60 in
  padStart 2 "0" (pretty hours) +:+ ":" +:+
  padStart 2 "0" (pretty minutes) +:+ ":" +:+
  padStart 2 "0" (pretty seconds).

(** Every character of [s] is a decimal digit. *)
Fixpoint all_digits (s : string) : bool :=
  match s with
  | String c s' => (is_digit c && all_digits s')%bool
  | EmptyString => true
  end.

(** A non-empty string of decimal digits. *)
Definition numeral (s : string) : Prop :=
  (all_digits s && negb (is_empty s))%bool = true.

(** The fractional digits after the dot, when there is a dot. *)
Definition fraction (fff : option string) : Prop :=
  match fff with Some f => all_digits f = true | None => True end.

(** The text [HH:MM:SS] or [HH:MM:SS.fff] built from its fields. *)
Definition clock_text (hh mm ss : string) (fff : option string) : string :=
  hh +:+ ":" +:+ mm +:+ ":" +:+ ss +:+
  match fff with Some f => "." +:+ f | None => "" end.

(** The number of seconds a seconds field denotes. *)
Definition seconds_value (ss : string) (fff : option string) : Qc :=
  match fff with
  | Some f =>
      (Qc_of_Z (parse_digits 0 ss)
       + Qc_of_Z (parse_digits 0 f)
         / Qc_of_Z (10 ^ Z.of_nat (String.length f)))%Qc
  | None => Qc_of_Z (parse_digits 0 ss)
  end.


(** No colon occurs in [s]. *)
Fixpoint colon_free (s : string) : bool :=
  match s with
  | String c s' => (negb (Ascii.eqb c ":") && colon_free s')%bool
  | EmptyString => true
  end.

End Duration.

(** ** Phase selector *)

Module Clock.

(** What the handlers read off [new Date()]. *)
Record Date := { getUTCHours : Z; getUTCMinutes : Z }.

(** [getCurrentUTCHour], lines 15-18. *)
Definition getCurrentUTCHour (now : Date) : Qc :=
  (Qc_of_Z (getUTCHours now) + Qc_of_Z (getUTCMinutes now) / Qc_of_Z 60)%Qc.

Inductive Phase := Learning | Quiz | Ranking.

Definition half_past_twenty : Qc := (Qc_of_Z 41 / Qc_of_Z 2)%Qc.

(** The conditions of lines 46, 66 and 80, in the order the handler
    tests them. *)
Definition phaseOf (currentHour : Qc) : Phase :=
  if (bool_decide (0 <= currentHour)%Qc
      && bool_decide (currentHour < Qc_of_Z 20)%Qc)%bool
  then Learning
  else if (bool_decide (Qc_of_Z 20 <= currentHour)%Qc
           && bool_decide (currentHour < half_past_twenty)%Qc)%bool
  then Quiz
  else Ranking.

End Clock.

(** ** The record store

    The handlers reach the tables only through the store client.  Every
    call answers with either data or an error and never throws; that is
    the convention the source relies on when it destructures
    [{ data, error }] and tests [error] itself. *)

Module Store.

Record User := {
  email : string;
  number_of_correct_ans : Z;
  time : option string;
  rank : Z
}.

Record WordItem := { w_word : string; w_content : string }.

Record Question := { word : string; correct : string }.

Inductive Table := WordsTable | QuestionsTable.

(** The column subsets the handlers write: [{ rank }] and
    [{ number_of_correct_ans, time }]. *)
Inductive Patch :=
  | SetRank (r : Z)
  | SetScore (n : Z) (t : string).

(** [.eq('email', e)] and [.neq('email', e)]. *)
Inductive Filter :=
  | EmailEq (e : string)
  | EmailNeq (e : string).

Inductive Call :=
  | SelectAll (t : Table)
  | SelectUsersOrdered
  | SelectUserSingle (e : string)
  | UpdateUsers (p : Patch) (f : Filter)
  | InsertUser (u : User).

(** The state a request runs against: the three tables, the outcome of
    the store calls still to come ([true]: the call fails; past the end
    of the list every call succeeds) and the calls made so far, oldest
    first. *)
Record World := {
  users : list User;
  words : list WordItem;
  questions : list Question;
  faults : list bool;
  calls : list Call
}.

Inductive Reply (A : Type) :=
  | Data (a : A)
  | Failed (message : string).
Arguments Data {A} a.
Arguments Failed {A} message.

Definition error {A} (r : Reply A) : option string :=
  match r with Data _ => None | Failed m => Some m end.

Definition data {A} (r : Reply A) : option A :=
  match r with Data a => Some a | Failed _ => None end.

Definition apply_patch (p : Patch) (u : User) : User :=
  match p with
  | SetRank r =>
      {| email := email u; number_of_correct_ans := number_of_correct_ans u;
         time := time u; rank := r |}
  | SetScore n t =>
      {| email := email u; number_of_correct_ans := n;
         time := Some t; rank := rank u |}
  end.

Definition selects (f : Filter) (u : User) : bool :=
  match f with
  | EmailEq e => bool_decide (email u = e)
  | EmailNeq e => negb (bool_decide (email u = e))
  end.

Definition with_users (us : list User) (w : World) : World :=
  {| users := us; words := words w; questions := questions w;
     faults := faults w; calls := calls w |}.

(** One round trip: the call is logged, the next fault flag is consumed,
    and [run] touches the tables only when the call goes through. *)
Definition logged (c : Call) (fs : list bool) (w : World) : World :=
  {| users := users w; words := words w; questions := questions w;
     faults := fs; calls := calls w ++ [c] |}.

Definition round_trip {A} (c : Call) (run : World -> Reply A * World)
    (w : World) : Reply A * World :=
  match faults w with
  | true :: fs => (Failed "record store unavailable", logged c fs w)
  | false :: fs => run (logged c fs w)
  | [] => run (logged c [] w)
  end.

Section Ordering.

(** The store's ascending order on the [time] column. *)
Variable interval_leb : option string -> option string -> bool.

(** [.order('number_of_correct_ans', { ascending: false })
     .order('time', { ascending: true })]: the row [u] may come before
    the row [v]. *)
Definition precedes (u v : User) : bool :=
  (Z.ltb (number_of_correct_ans v) (number_of_correct_ans u)
   || (Z.eqb (number_of_correct_ans u) (number_of_correct_ans v)
       && interval_leb (time u) (time v)))%bool.

(** The ordered select as a stable insertion of the rows, one by one. *)
Fixpoint place (u : User) (sorted : list User) : list User :=
  match sorted with
  | [] => [u]
  | v :: rest => if precedes u v then u :: sorted else v :: place u rest
  end.

Definition order_users (us : list User) : list User := foldr place [] us.

Definition select_users_ordered : World -> Reply (list User) * World :=
  round_trip SelectUsersOrdered (fun w => (Data (order_users (users w)), w)).

End Ordering.

(** [.from(table).select('*')]. *)
Definition select_words : World -> Reply (list WordItem) * World :=
  round_trip (SelectAll WordsTable) (fun w => (Data (words w), w)).

Definition select_questions : World -> Reply (list Question) * World :=
  round_trip (SelectAll QuestionsTable) (fun w => (Data (questions w), w)).

(** [.select('*').eq('email', e).single()]: an error unless exactly one
    row matches. *)
Definition select_user_single (e : string) : World -> Reply User * World :=
  round_trip (SelectUserSingle e) (fun w =>
    match filter (fun u => email u = e) (users w) with
    | [u] => (Data u, w)
    | _ => (Failed "JSON object requested, multiple (or no) rows returned", w)
    end).

(** [.update(p)] under a filter: every row the filter selects. *)
Definition update_users (p : Patch) (f : Filter) : World -> Reply unit * World :=
  round_trip (UpdateUsers p f) (fun w =>
    (Data tt,
     with_users (map (fun u => if selects f u then apply_patch p u else u)
                     (users w)) w)).

(** [.insert(u)]. *)
Definition insert_user (u : User) : World -> Reply unit * World :=
  round_trip (InsertUser u) (fun w => (Data tt, with_users (users w ++ [u]) w)).

End Store.

(** ** The route handlers *)

Module Server.
Import Duration Clock Store.

Inductive Body :=
  | WordsBody (data : list WordItem)
  | QuestionsBody (data : list Question)
  | RankingsBody (user : option User) (leaderboard : list User)
  | SubmitBody (correctAnswers : Z) (totalQuestions : nat) (timeTaken : string).

(** [res.json(...)] is status 200; [res.status(400)] and
    [res.status(500)] carry [{ error }]. *)
Inductive Response :=
  | Status200 (body : Body)
  | Status400 (message : string)
  | Status500 (message : string).

(** An [async] body: it runs against the world and either returns or
    throws. *)
Inductive Outcome (A : Type) :=
  | Returned (a : A)
  | Thrown (message : string).
Arguments Returned {A} a.
Arguments Thrown {A} message.

Definition Async (A : Type) : Type := World -> Outcome A * World.

Definition ret {A} (a : A) : Async A := fun w => (Returned a, w).

Definition throw {A} (message : string) : Async A := fun w => (Thrown message, w).

Definition bind {A B} (m : Async A) (k : A -> Async B) : Async B :=
  fun w =>
    match m w with
    | (Returned a, w') => k a w'
    | (Thrown e, w') => (Thrown e, w')
    end.

(** [await] on a store call. *)
Definition await {A} (call : World -> Reply A * World) : Async (Reply A) :=
  fun w => let (r, w') := call w in (Returned r, w').

Notation "'let*' x ':=' m 'in' k" := (bind m (fun x => k))
  (at level 10, x name, m at level 100, k at level 200, only parsing).

(** [for (const x of xs) { ... }] *)
Fixpoint for_of {A} (xs : list A) (body : A -> Async unit) : Async unit :=
  match xs with
  | [] => ret tt
  | x :: rest => let* _ := body x in for_of rest body
  end.

(** [try { ... } catch (error) { res.status(500).json(...) }] *)
Definition try_catch (m : Async Response) (w : World) : Response * World :=
  match m w with
  | (Returned r, w') => (r, w')
  | (Thrown e, w') => (Status500 e, w')
  end.

(** [if (error) throw error;] followed by the use of [data]. *)
Definition checked {A} (r : Reply A) : Async A :=
  match r with
  | Data a => ret a
  | Failed m => throw m
  end.

Definition with_rank (r : Z) (u : User) : User := apply_patch (SetRank r) u.

Section Routes.

Variable interval_leb : option string -> option string -> bool.

(** Route 1, [GET /api/data/:email], lines 36-121. *)
Definition get_api_data (now : Date) (email_param : string)
    : World -> Response * World :=
  try_catch (
    let currentHour := getCurrentUTCHour now in
    match phaseOf currentHour with
    | Learning =>
        let* _ := await (update_users (SetRank 0) (EmailNeq "")) in
        let* reply := await select_words in
        let* words := checked reply in
        ret (Status200 (WordsBody words))
    | Quiz =>
        let* reply := await select_questions in
        let* questions := checked reply in
        ret (Status200 (QuestionsBody questions))
    | Ranking =>
        let* reply := await (select_users_ordered interval_leb) in
        let* users := checked reply in
        let rankedUsers :=
          imap (fun index user => with_rank (Z.of_nat index + 1) user) users in
        let* _ := for_of rankedUsers (fun user =>
          let* _ := await (update_users (SetRank (rank user))
                                        (EmailEq (email user))) in
          ret tt) in
        let userData :=
          find (fun u => bool_decide (email u = email_param)) rankedUsers in
        ret (Status200 (RankingsBody userData rankedUsers))
    end).

End Routes.

(** The body of [POST /api/submit]; a field that is absent or [null] is
    [None]. *)
(** A JavaScript number: a rational, or [NaN].  [NaN] absorbs every
    sum. *)
Inductive Number :=
  | Finite (q : Qc)
  | NaN.

Definition num_add (a b : Number) : Number :=
  match a, b with
  | Finite x, Finite y => Finite (x + y)%Qc
  | _, _ => NaN
  end.

(** Lines 160-164 and 178-182 on a number: [Math.floor], [/] and [%]
    give [NaN] on [NaN], [NaN.toString()] is ["NaN"], which [padStart]
    leaves as it is. *)
Definition interval_text (n : Number) : string :=
  match n with
  | Finite q => intervalString q
  | NaN => "NaN:NaN:NaN"
  end.

(** A field of the request body, as line 126 destructures it: absent
    ([undefined]), one of the falsy values [null], [false], [0] and the
    empty string, or a value of the type the interface gives the field.
    Truthy values of another type are outside the model. *)
Inductive Field (A : Type) :=
  | Absent
  | Null
  | IsFalse
  | Zero
  | Empty
  | Present (a : A).
Arguments Absent {A}.
Arguments Null {A}.
Arguments IsFalse {A}.
Arguments Zero {A}.
Arguments Empty {A}.
Arguments Present {A} a.

(** The request body parsed from JSON: [answers] and [time] are plain
    objects, given by their own properties. *)
Record Submission := {
  req_email : Field string;
  req_answers : Field (gmap string string);
  req_time : Field (gmap string Qc)
}.

(** [questions.find(q => q.word === word)], line 147. *)
Definition find_question (questions : list Question) (word_ : string)
    : option Question :=
  find (fun q => bool_decide (word q = word_)) questions.

(** The property names of [Object.prototype], which every object parsed
    from JSON inherits. *)
Definition object_prototype : list string :=
  [ "constructor"; "__defineGetter__"; "__defineSetter__"; "hasOwnProperty";
    "__lookupGetter__"; "__lookupSetter__"; "isPrototypeOf";
    "propertyIsEnumerable"; "toString"; "valueOf"; "__proto__";
    "toLocaleString" ].

(** What [time[word]] reads: an own property, else a property inherited
    from [Object.prototype] (a function, or for [__proto__] the prototype
    itself), else [undefined]. *)
Inductive Property :=
  | Own (t : Qc)
  | Inherited
  | NoProperty.

Definition get_property (time : gmap string Qc) (word_ : string) : Property :=
  match time !! word_ with
  | Some t => Own t
  | None =>
      if bool_decide (word_ ∈ object_prototype) then Inherited else NoProperty
  end.

(** One turn of the loop of lines 146-157.  An own entry is a number,
    which [parseFloat] gives back as it is, and is falsy and skipped when
    it is zero; an inherited property is truthy and [parseFloat] makes it
    [NaN]. *)
Definition score_entry (questions : list Question) (time : gmap string Qc)
    (acc : Z * Number) (entry : string * string) : Z * Number :=
  let '(correctCount, totalTimeMs) := acc in
  let '(word_, answer) := entry in
  let question := find_question questions word_ in
  let correctCount' :=
    match question with
    | Some q =>
        if bool_decide (correct q = answer) then correctCount + 1
        else correctCount
    | None => correctCount
    end in
  let totalTimeMs' :=
    match get_property time word_ with
    | Own t =>
        if bool_decide (t = 0%Qc) then totalTimeMs
        else num_add totalTimeMs (Finite t)
    | Inherited => num_add totalTimeMs NaN
    | NoProperty => totalTimeMs
    end in
  (correctCount', totalTimeMs').

(** Lines 143-157: [correctCount] and [totalTimeMs] after the loop over
    [Object.entries(answers)]. *)
Definition score (questions : list Question) (answers : gmap string string)
    (time : gmap string Qc) : Z * Number :=
  fold_left (score_entry questions time) (map_to_list answers)
            (0, Finite 0%Qc).

(** Lines 173-207: update the record found, or insert a new one. *)
Definition upsert (email_ : string) (existingUser : option User)
    (correctCount : Z) (totalTimeMs : Number) : Async unit :=
  match existingUser with
  | Some existing =>
      let existingTimeMs := intervalToMs (Store.time existing) in
      let newTotalTimeMs := num_add (Finite existingTimeMs) totalTimeMs in
      let newIntervalString := interval_text newTotalTimeMs in
      let* reply := await (update_users
        (SetScore (number_of_correct_ans existing + correctCount)
                  newIntervalString)
        (EmailEq email_)) in
      let* _ := checked reply in
      ret tt
  | None =>
      let* reply := await (insert_user
        {| email := email_; number_of_correct_ans := correctCount;
           Store.time := Some (interval_text totalTimeMs); rank := 0 |}) in
      let* _ := checked reply in
      ret tt
  end.

(** Route 2, [POST /api/submit], lines 124-221.  The guard of line 129
    is a truthiness test: it holds of an absent field, of [null],
    [false], [0] and of the empty string, and of no object. *)
Definition post_api_submit (body : Submission) : World -> Response * World :=
  try_catch (
    match req_email body, req_answers body, req_time body with
    | Present (String c e), Present answers, Present time =>
        let email_ := String c e in
        let* reply := await select_questions in
        let* questions := checked reply in
        let '(correctCount, totalTimeMs) := score questions answers time in
        let intervalString_ := interval_text totalTimeMs in
        let* found := await (select_user_single email_) in
        let existingUser := data found in
        let* _ := upsert email_ existingUser correctCount totalTimeMs in
        ret (Status200 (SubmitBody correctCount (size answers) intervalString_))
    | _, _, _ =>
        ret (Status400 "Missing required fields: email, answers, time")
    end).

End Server.

(** ** Vocabulary of the properties *)

Module Spec.
Import Duration Clock Store Server.

(** The next [n] store calls all go through. *)
Definition reliable (n : nat) (w : World) : Prop :=
  forallb negb (take n (faults w)) = true.

(** At most one record per email. *)
Definition unique_emails (us : list User) : Prop := NoDup (email <$> us).

(** Every record carries an email. *)
Definition named (us : list User) : Prop :=
  forall u, u ∈ us -> email u <> "".

(** The leaderboard order: more correct answers first, and among equal
    counts the smaller [time] first. *)
Definition ranks_before (interval_leb : option string -> option string -> bool)
    (u v : User) : Prop :=
  number_of_correct_ans v < number_of_correct_ans u
  \/ (number_of_correct_ans u = number_of_correct_ans v
      /\ interval_leb (time u) (time v) = true).

Definition linear {A} (leb : A -> A -> bool) : Prop :=
  (forall a b, leb a b = true \/ leb b a = true)
  /\ (forall a b c, leb a b = true -> leb b c = true -> leb a c = true).

(** The order of a store that reads a duration the way [intervalToMs]
    does. *)
Definition duration_leb (a b : option string) : bool :=
  bool_decide (intervalToMs a <= intervalToMs b)%Qc.

(** A record with its rank left out of the comparison. *)
Definition unranked (u : User) : User := with_rank 0 u.

Definition sum_Qc (l : list Qc) : Qc := foldr Qcplus 0%Qc l.

(** [Object.keys(answers)]. *)
Definition keys (answers : gmap string string) : list string :=
  (map_to_list answers).*1.

(** The milliseconds the [time] mapping holds for a key, zero when it
    holds none. *)
Definition elapsed (time : gmap string Qc) (k : string) : Qc :=
  default 0%Qc (time !! k).

(** What the read of [time[k]] adds to the total. *)
Definition contribution (time : gmap string Qc) (k : string) : Number :=
  match get_property time k with
  | Own t => Finite t
  | Inherited => NaN
  | NoProperty => Finite 0%Qc
  end.

Definition sum_Number (l : list Number) : Number :=
  foldr num_add (Finite 0%Qc) l.

(** The answer submitted for a word is the accepted answer of the
    question found for that word. *)
Definition answered_correctly (questions : list Question)
    (entry : string * string) : bool :=
  match find_question questions entry.1 with
  | Some q => bool_decide (correct q = entry.2)
  | None => false
  end.

(** [q] is the first question of the list with the word [k]. *)
Definition first_with_word (questions : list Question) (k : string)
    (q : Question) : Prop :=
  exists before after,
    questions = before ++ q :: after
    /\ word q = k
    /\ Forall (fun p => word p <> k) before.

(** A required field that is absent, or present and empty. *)
Definition missing_or_empty (body : Submission) : Prop :=
  req_email body = Absent \/ req_email body = Present ""
  \/ req_answers body = Absent \/ req_answers body = Present ∅
  \/ req_time body = Absent \/ req_time body = Present ∅.

(** A field that is absent or holds [null], [false], [0] or the empty
    string. *)
Definition falsy {A} (f : Field A) : Prop :=
  match f with Present _ => False | _ => True end.

(** A required field that is falsy. *)
Definition falsy_field (body : Submission) : Prop :=
  falsy (req_email body) \/ req_email body = Present ""
  \/ falsy (req_answers body) \/ falsy (req_time body).

(** No key of [answers] is read from [Object.prototype]: a key with no
    entry of its own in [time] is not a property name of the
    prototype. *)
Definition own_timed (answers : gmap string string) (time : gmap string Qc)
    : Prop :=
  forall k, k ∈ keys answers -> time !! k = None -> k ∉ object_prototype.

(** The number a string of decimal digits denotes, by the place value of
    each digit: the digit at distance [n] from the end counts [10 ^ n]
    times. *)
Fixpoint decimal (s : string) : Z :=
  match s with
  | EmptyString => 0
  | String c rest =>
      (Z.of_nat (nat_of_ascii c) - 48) * 10 ^ Z.of_nat (String.length rest)
      + decimal rest
  end.

Definition missing_fields : string :=
  "Missing required fields: email, answers, time".

End Spec.

(** ** Sample data *)

Module Examples.
Import Clock Store Server.

Definition ana : User :=
  {| email := "ana@example.org"; number_of_correct_ans := 1;
     time := Some "00:00:05"; rank := 0 |}.

Definition ben : User :=
  {| email := "ben@example.org"; number_of_correct_ans := 3;
     time := Some "00:00:09"; rank := 7 |}.

Definition quiz : list Question :=
  [ {| word := "cat"; correct := "gato" |};
    {| word := "dog"; correct := "gato" |} ].

Definition lesson : list WordItem :=
  [ {| w_word := "cat"; w_content := "gato" |} ].

Definition world_of (us : list User) (fs : list bool) : World :=
  {| users := us; words := lesson; questions := quiz;
     faults := fs; calls := [] |}.

Definition cat_submission : Submission :=
  {| req_email := Present "ana@example.org";
     req_answers := Present ({[ "cat" := "gato" ]} : gmap string string);
     req_time := Present ({[ "cat" := Qc_of_Z 5000 ]} : gmap string Qc) |}.

Definition dog_submission : Submission :=
  {| req_email := Present "ana@example.org";
     req_answers := Present ({[ "dog" := "perro" ]} : gmap string string);
     req_time := Present ({[ "dog" := Qc_of_Z 3000 ]} : gmap string Qc) |}.

(** Every field present, the two mappings empty. *)
Definition empty_submission : Submission :=
  {| req_email := Present "ana@example.org";
     req_answers := Present (∅ : gmap string string);
     req_time := Present (∅ : gmap string Qc) |}.

Definition no_time_submission : Submission :=
  {| req_email := Present "ana@example.org";
     req_answers := Present ({[ "cat" := "gato" ]} : gmap string string);
     req_time := Absent |}.

Definition morning : Date := {| getUTCHours := 9; getUTCMinutes := 15 |}.
Definition evening : Date := {| getUTCHours := 21; getUTCMinutes := 0 |}.

End Examples.

(** ** Notions the further properties are stated with *)

Module Invariants.
Import Duration Clock Store Server Spec.

(** The shape of the duration texts the server writes: hours of two
    digits or more, minutes and seconds of two digits each and below
    sixty. *)
Definition clock_shaped (s : string) : Prop :=
  exists hh mm ss,
    s = clock_text hh mm ss None
    /\ numeral hh /\ numeral mm /\ numeral ss
    /\ (2 <= String.length hh)%nat
    /\ String.length mm = 2%nat /\ String.length ss = 2%nat
    /\ parse_digits 0 mm < 60 /\ parse_digits 0 ss < 60.

(** Every record holds a time, and of that shape. *)
Definition well_timed (us : list User) : Prop :=
  Forall (fun u => exists s, Store.time u = Some s /\ clock_shaped s) us.

(** The entries of the time mapping of a request are not negative. *)
Definition times_nonnegative (body : Submission) : Prop :=
  forall time_ k v,
    req_time body = Present time_ -> time_ !! k = Some v -> (0 <= v)%Qc.

(** No key of the answers of a request is read from [Object.prototype]. *)
Definition own_times (body : Submission) : Prop :=
  forall answers time_,
    req_answers body = Present answers -> req_time body = Present time_ ->
    own_timed answers time_.

(** The record an attempt writes over [existing], lines 174-189. *)
Definition merged_record (existing : User) (sc : Z * Number) : User :=
  {| email := email existing;
     number_of_correct_ans := number_of_correct_ans existing + sc.1;
     Store.time :=
       Some (interval_text
               (num_add (Finite (intervalToMs (Store.time existing))) sc.2));
     rank := rank existing |}.

(** The record an attempt creates, lines 197-204. *)
Definition fresh_record (e : string) (sc : Z * Number) : User :=
  {| email := e; number_of_correct_ans := sc.1;
     Store.time := Some (interval_text sc.2); rank := 0 |}.

(** Two worlds that differ in rank fields at most. *)
Definition only_ranks_differ (w w' : World) : Prop :=
  map unranked (users w') = map unranked (users w)
  /\ words w' = words w /\ questions w' = questions w.

(** What one rank update of the loop of lines 97-102, the one issued for
    the leaderboard entry [v], does to the stored record [u]. *)
Definition rank_written (u v : User) : User :=
  if selects (EmailEq (email v)) u then apply_patch (SetRank (rank v)) u
  else u.

End Invariants.

(** ** Further sample data *)

Module Cases.
Import Clock Store Server Examples.

(** Five seconds and a half, in milliseconds. *)
Definition five_and_a_half : Qc := (Qc_of_Z 11001 / Qc_of_Z 2)%Qc.

Definition quiz_time : Date := {| getUTCHours := 20; getUTCMinutes := 15 |}.

(** The questions with the word [cat] twice. *)
Definition twice_cat : list Question :=
  [ {| word := "cat"; correct := "gato" |};
    {| word := "cat"; correct := "chat" |} ].

Definition chat_answer : gmap string string := {[ "cat" := "chat" ]}.

(** An answer under the key [constructor], with no time for it. *)
Definition constructor_submission : Submission :=
  {| req_email := Present "ana@example.org";
     req_answers := Present ({[ "constructor" := "x" ]} : gmap string string);
     req_time := Present (∅ : gmap string Qc) |}.

(** [time: 0] in the body. *)
Definition zero_time_submission : Submission :=
  {| req_email := Present "ana@example.org";
     req_answers := Present ({[ "cat" := "gato" ]} : gmap string string);
     req_time := Zero |}.

(** [ana] and [ben] with other ranks stored. *)
Definition reranked : list User := [with_rank 4 ana; with_rank 0 ben].

End Cases.

(** * Properties *)

(** ** Duration codec *)

Section DurationFacts.
Import Duration.

Lemma is_digit_pretty_char d : is_digit (pretty_N_char d) = true.
Proof. unfold pretty_N_char. repeat case_match; reflexivity. Qed.

Lemma digit_value_pretty_char d :
  (d < 10)%N -> digit_value (pretty_N_char d) = Z.of_N d.
Proof.
  intros Hd.
  assert (d = 0 \/ d = 1 \/ d = 2 \/ d = 3 \/ d = 4 \/ d = 5 \/ d = 6
          \/ d = 7 \/ d = 8 \/ d = 9)%N as Hcases by lia.
  repeat (destruct Hcases as [-> | Hcases]; [reflexivity |]).
  subst d. reflexivity.
Qed.

Lemma parse_digits_acc s acc :
  parse_digits acc s
  = acc * 10 ^ Z.of_nat (String.length s) + parse_digits 0 s.
Proof.
  revert acc. induction s as [| c s IH]; intros acc.
  - simpl. lia.
  - cbn [parse_digits String.length]. rewrite IH, (IH (0 * 10 + _)).
    rewrite Nat2Z.inj_succ, Z.pow_succ_r by lia. ring.
Qed.

Lemma all_digits_app s t :
  all_digits (s +:+ t) = (all_digits s && all_digits t)%bool.
Proof.
  induction s as [| c s IH]; [reflexivity |].
  simpl. rewrite IH. by rewrite andb_assoc.
Qed.

Lemma span_digits_all s :
  all_digits s = true -> span_digits s = (s, "").
Proof.
  induction s as [| c s IH]; [reflexivity |].
  simpl. intros [Hc Hs]%andb_prop. rewrite Hc, (IH Hs). reflexivity.
Qed.

Lemma span_digits_stop s c rest :
  all_digits s = true -> is_digit c = false ->
  span_digits (s +:+ String c rest) = (s, String c rest).
Proof.
  intros Hs Hc. induction s as [| a s IH].
  - simpl. by rewrite Hc.
  - simpl in *. apply andb_prop in Hs as [Ha Hs].
    rewrite Ha, (IH Hs). reflexivity.
Qed.

Lemma pretty_N_go_digits x s :
  all_digits s = true -> all_digits (pretty_N_go x s) = true.
Proof.
  revert s. induction (N.lt_wf_0 x) as [x _ IH]; intros s Hs.
  destruct (decide (x = 0)%N) as [-> | Hx]; [done |].
  rewrite pretty_N_go_step by lia.
  apply IH; [apply N.div_lt; lia |].
  simpl. by rewrite is_digit_pretty_char.
Qed.

Lemma pretty_N_go_value x s :
  parse_digits 0 (pretty_N_go x s)
  = Z.of_N x * 10 ^ Z.of_nat (String.length s) + parse_digits 0 s.
Proof.
  revert s. induction (N.lt_wf_0 x) as [x _ IH]; intros s.
  destruct (decide (x = 0)%N) as [-> | Hx].
  - rewrite pretty_N_go_0. simpl. lia.
  - rewrite pretty_N_go_step by lia.
    rewrite IH by (apply N.div_lt; lia).
    cbn [parse_digits String.length].
    rewrite (parse_digits_acc s), digit_value_pretty_char
      by (apply N.mod_lt; lia).
    rewrite Nat2Z.inj_succ, Z.pow_succ_r by lia.
    rewrite N2Z.inj_div, N2Z.inj_mod. change (Z.of_N 10) with 10.
    pose proof (Z.div_mod (Z.of_N x) 10 ltac:(lia)) as Hdm.
    rewrite Hdm at 3. ring.
Qed.

Lemma pretty_N_go_nonempty x s : (0 < x)%N -> pretty_N_go x s <> "".
Proof.
  revert s. induction (N.lt_wf_0 x) as [x _ IH]; intros s Hx.
  rewrite pretty_N_go_step by done.
  destruct (decide (x `div` 10 = 0)%N) as [-> | Hq].
  - by rewrite pretty_N_go_0.
  - apply IH; [apply N.div_lt; lia | by apply N.neq_0_lt_0].
Qed.

Lemma numeral_spec s : numeral s <-> all_digits s = true /\ s <> "".
Proof.
  unfold numeral. rewrite andb_true_iff, negb_true_iff.
  destruct s; simpl; intuition congruence.
Qed.

Lemma pretty_nonneg_numeral z : 0 <= z -> numeral (pretty z).
Proof.
  intros Hz. apply numeral_spec.
  destruct z as [| p | p]; [done | | lia].
  unfold pretty, pretty_Z, pretty, pretty_positive, pretty, pretty_N.
  rewrite decide_False by done. split.
  - by apply pretty_N_go_digits.
  - by apply pretty_N_go_nonempty.
Qed.

Lemma pretty_nonneg_value z : 0 <= z -> parse_digits 0 (pretty z) = z.
Proof.
  intros Hz. destruct z as [| p | p]; [done | | lia].
  unfold pretty, pretty_Z, pretty, pretty_positive, pretty, pretty_N.
  rewrite decide_False by done.
  rewrite pretty_N_go_value. simpl. lia.
Qed.

Lemma padStart_numeral s : numeral s -> numeral (padStart 2 "0" s).
Proof.
  intros [Hd Hne]%numeral_spec. apply numeral_spec. unfold padStart.
  destruct s as [| a [| b s]]; [done | | ]; simpl in *; split; try done.
Qed.

Lemma padStart_value s :
  parse_digits 0 (padStart 2 "0" s) = parse_digits 0 s.
Proof.
  unfold padStart. destruct s as [| a [| b s]]; reflexivity.
Qed.

Lemma numeral_cons s : numeral s -> exists c s', s = String c s'.
Proof. intros [_ Hne]%numeral_spec. destruct s; [done | eauto]. Qed.

Lemma parseInt_numeral s : numeral s -> parseInt s = parse_digits 0 s.
Proof.
  intros [Hd _]%numeral_spec. unfold parseInt. by rewrite span_digits_all.
Qed.

Lemma append_empty_r s : s +:+ "" = s.
Proof.
  induction s as [| c s IH]; [done |].
  change (String c (s +:+ "") = String c s). by f_equal.
Qed.


Lemma numeral_not_empty s : numeral s -> is_empty s = false.
Proof. intros [_ Hne]%numeral_spec. by destruct s. Qed.

Lemma clock_text_unfold hh mm ss fff :
  clock_text hh mm ss fff
  = hh +:+ String ":" (mm +:+ String ":" (ss +:+
      match fff with Some f => String "." f | None => "" end)).
Proof. by destruct fff. Qed.

Lemma match_here_clock hh mm ss fff :
  numeral hh -> numeral mm -> numeral ss ->
  fraction fff ->
  match_here (clock_text hh mm ss fff)
  = Some (hh, mm, ss +:+ match fff with Some f => "." +:+ f | None => "" end).
Proof.
  intros Hh Hm Hs Hf. unfold match_here. rewrite clock_text_unfold.
  pose proof (proj1 (numeral_spec hh) Hh) as [Hhd _].
  pose proof (proj1 (numeral_spec mm) Hm) as [Hmd _].
  pose proof (proj1 (numeral_spec ss) Hs) as [Hsd _].
  rewrite (span_digits_stop hh) by done.
  rewrite (numeral_not_empty hh) by done. cbn [expect Ascii.eqb Bool.eqb].
  rewrite (span_digits_stop mm) by done.
  rewrite (numeral_not_empty mm) by done. cbn [expect Ascii.eqb Bool.eqb].
  destruct fff as [f |].
  - rewrite (span_digits_stop ss) by done.
    rewrite (numeral_not_empty ss) by done. cbn [expect Ascii.eqb Bool.eqb].
    rewrite (span_digits_all f) by auto. reflexivity.
  - cbv iota. rewrite append_empty_r, (span_digits_all ss) by done.
    rewrite (numeral_not_empty ss) by done. reflexivity.
Qed.

Lemma timeMatch_here s g : match_here s = Some g -> timeMatch s = Some g.
Proof.
  intros Hg. destruct s as [| c s]; [by vm_compute in Hg |].
  cbn [timeMatch]. by rewrite Hg.
Qed.

Lemma parseFloat_seconds ss fff :
  numeral ss -> fraction fff ->
  parseFloat (ss +:+ match fff with Some f => "." +:+ f | None => "" end)
  = seconds_value ss fff.
Proof.
  intros [Hsd _]%numeral_spec Hf. unfold parseFloat, seconds_value.
  destruct fff as [f |].
  - change (ss +:+ "." +:+ f) with (ss +:+ String "." f).
    rewrite (span_digits_stop ss) by done.
    cbn [expect Ascii.eqb Bool.eqb].
    rewrite (span_digits_all f) by auto. reflexivity.
  - cbv iota. rewrite append_empty_r, (span_digits_all ss) by done.
    reflexivity.
Qed.

Lemma intervalToMs_clock hh mm ss fff :
  numeral hh -> numeral mm -> numeral ss ->
  fraction fff ->
  intervalToMs (Some (clock_text hh mm ss fff))
  = ((Qc_of_Z (parse_digits 0 hh * 3600 + parse_digits 0 mm * 60)
      + seconds_value ss fff) * Qc_of_Z 1000)%Qc.
Proof.
  intros Hh Hm Hs Hf. unfold intervalToMs.
  rewrite (timeMatch_here _ _ (match_here_clock hh mm ss fff Hh Hm Hs Hf)).
  rewrite parseFloat_seconds, !parseInt_numeral by done.
  destruct (numeral_cons hh Hh) as (c & hh' & ->). reflexivity.
Qed.

(** ** Skipping a prefix that cannot start a match *)

Lemma span_digits_colon_free p c t :
  colon_free p = true -> is_digit c = false -> Ascii.eqb c ":" = false ->
  expect ":" (snd (span_digits (p +:+ String c t))) = None.
Proof.
  intros Hp Hc Hcolon. induction p as [| a p IH].
  - simpl. rewrite Hc. simpl. by rewrite Hcolon.
  - simpl in *. apply andb_prop in Hp as [Ha Hp].
    destruct (is_digit a).
    + specialize (IH Hp). destruct (span_digits _) as [g r]. exact IH.
    + simpl. by apply negb_true_iff in Ha as ->.
Qed.

Lemma match_here_colon_free p c t :
  colon_free p = true -> is_digit c = false -> Ascii.eqb c ":" = false ->
  match_here (p +:+ String c t) = None.
Proof.
  intros Hp Hc Hcolon. unfold match_here.
  pose proof (span_digits_colon_free p c t Hp Hc Hcolon) as Hspan.
  destruct (span_digits _) as [g r]. simpl in Hspan. rewrite Hspan.
  by destruct (is_empty g).
Qed.

Lemma timeMatch_skip p c t :
  colon_free p = true -> is_digit c = false -> Ascii.eqb c ":" = false ->
  timeMatch (p +:+ String c t) = timeMatch t.
Proof.
  intros Hp Hc Hcolon. induction p as [| a p IH].
  - pose proof (match_here_colon_free "" c t eq_refl Hc Hcolon) as Hnone.
    change ("" +:+ String c t) with (String c t) in *.
    cbn [timeMatch]. by rewrite Hnone.
  - pose proof (match_here_colon_free _ c t Hp Hc Hcolon) as Hnone.
    simpl in Hp. apply andb_prop in Hp as [_ Hp].
    change (String a p +:+ String c t)
      with (String a (p +:+ String c t)) in *.
    cbn [timeMatch]. rewrite Hnone. by apply IH.
Qed.






Lemma floor_div_1000 ms : floor (Qc_of_Z ms / Qc_of_Z 1000)%Qc = ms / 1000.
Proof.
  unfold floor. rewrite Zdiv_Qdiv. apply Qfloor_comp.
  unfold Qcdiv, Qcmult, Qcinv, Q2Qc, Qc_of_Z. cbn [this].
  rewrite !Qred_correct. reflexivity.
Qed.

Lemma hms_recompose ts :
  0 <= ts ->
  0 <= ts / 3600 /\ 0 <= Z.rem ts 3600 / 60 /\ 0 <= Z.rem ts 60 /\
  (ts / 3600 * 3600 + Z.rem ts 3600 / 60 * 60) + Z.rem ts 60 = ts.
Proof.
  intros Hts. rewrite !Z.rem_mod_nonneg by lia.
  pose proof (Z.div_mod ts 3600 ltac:(lia)).
  pose proof (Z.mod_pos_bound ts 3600 ltac:(lia)).
  pose proof (Z.div_mod (ts mod 3600) 60 ltac:(lia)).
  pose proof (Z.mod_pos_bound (ts mod 3600) 60 ltac:(lia)).
  pose proof (Z.div_pos ts 3600 ltac:(lia) ltac:(lia)).
  pose proof (Z.div_pos (ts mod 3600) 60 ltac:(lia) ltac:(lia)).
  pose proof (Z.mod_pos_bound ts 60 ltac:(lia)).
  assert (ts mod 60 = (ts mod 3600) mod 60) as Hmm.
  { symmetry. apply Z.mod_mod_divide. exists 60. lia. }
  repeat split; try lia.
Qed.

Lemma floor_nonneg q : (0 <= q)%Qc -> 0 <= floor (q / Qc_of_Z 1000)%Qc.
Proof.
  intros Hq. unfold floor.
  change 0 with (Qfloor 0). apply Qfloor_resp_le.
  pose proof (Qcmult_le_compat_r 0 q (/ Qc_of_Z 1000) Hq) as Hle.
  rewrite Qcmult_0_l in Hle. apply Hle. vm_compute. discriminate.
Qed.

(** Fractions of a second are dropped by the formatter, not rounded. *)
Lemma parse_format_whole_seconds q :
  (0 <= q)%Qc ->
  intervalToMs (Some (intervalString q))
  = Qc_of_Z (floor (q / Qc_of_Z 1000)%Qc * 1000).
Proof.
  intros Hq. unfold intervalString.
  set (ts := floor (q / Qc_of_Z 1000)%Qc).
  assert (0 <= ts) as Hts by (by apply floor_nonneg).
  destruct (hms_recompose ts Hts) as (Hh & Hm & Hs & Hsum).
  set (hh := padStart 2 "0" (pretty (ts / 3600))).
  set (mm := padStart 2 "0" (pretty (Z.rem ts 3600 / 60))).
  set (ss := padStart 2 "0" (pretty (Z.rem ts 60))).
  replace (hh +:+ ":" +:+ mm +:+ ":" +:+ ss) with (clock_text hh mm ss None)
    by (unfold clock_text; by rewrite append_empty_r).
  rewrite intervalToMs_clock;
    try (apply padStart_numeral, pretty_nonneg_numeral; done); [| done].
  unfold seconds_value, hh, mm, ss.
  rewrite !padStart_value, !pretty_nonneg_value by done.
  rewrite <- Z2Qc_inj_add, <- Z2Qc_inj_mul. by rewrite Hsum.
Qed.

(** C6.  Formatting a non-negative whole number of milliseconds and
    parsing the text back gives the milliseconds of the whole seconds:
    [floor (ms / 1000) * 1000]. *)
Theorem parse_format_floor ms :
  0 <= ms ->
  intervalToMs (Some (intervalString (Qc_of_Z ms)))
  = Qc_of_Z (ms / 1000 * 1000).
Proof.
  intros Hms. rewrite parse_format_whole_seconds, floor_div_1000; [done |].
  rewrite <- Z2Qc_inj_0. by apply (proj1 (Z2Qc_inj_le 0 ms)).
Qed.


End DurationFacts.

(** ** Phase selector *)

Section PhaseFacts.
Import Clock.

Lemma twenty_lt_half_past : (Qc_of_Z 20 < half_past_twenty)%Qc.
Proof. reflexivity. Qed.

Lemma phaseOf_Learning h :
  phaseOf h = Learning <-> (0 <= h /\ h < Qc_of_Z 20)%Qc.
Proof.
  unfold phaseOf. repeat case_bool_decide; simpl; split;
    try done; try tauto.
Qed.

Lemma phaseOf_Quiz h :
  phaseOf h = Quiz <-> (Qc_of_Z 20 <= h /\ h < half_past_twenty)%Qc.
Proof.
  unfold phaseOf. repeat case_bool_decide; simpl; split;
    try done; try tauto.
  intros _. exfalso.
  match goal with
  | Hlt : (h < Qc_of_Z 20)%Qc, Hge : (Qc_of_Z 20 <= h)%Qc |- _ =>
      exact (Qclt_not_le _ _ Hlt Hge)
  end.
Qed.

(** C7.  For an hour of the day [h] in [0, 24) the dispatch selects
    Learning exactly on [0, 20), Quiz exactly on [20, 20.5) and Ranking
    exactly on [20.5, 24); the hour 20 is Quiz and the hour 20.5 is
    Ranking. *)
Theorem phase_windows h :
  (0 <= h)%Qc -> (h < Qc_of_Z 24)%Qc ->
  (phaseOf h = Learning <-> (0 <= h /\ h < Qc_of_Z 20)%Qc)
  /\ (phaseOf h = Quiz <-> (Qc_of_Z 20 <= h /\ h < half_past_twenty)%Qc)
  /\ (phaseOf h = Ranking <-> (half_past_twenty <= h /\ h < Qc_of_Z 24)%Qc)
  /\ phaseOf (Qc_of_Z 20) = Quiz
  /\ phaseOf half_past_twenty = Ranking.
Proof.
  intros H0 H24.
  split; [apply phaseOf_Learning |].
  split; [apply phaseOf_Quiz |].
  split; [| split; reflexivity].
  destruct (phaseOf h) eqn:Hp.
  - apply phaseOf_Learning in Hp as [_ Hlt]. split; [done |].
    intros [Hge _]. exfalso. apply (Qclt_not_le _ _ Hlt).
    eapply Qcle_trans; [| exact Hge]. apply Qclt_le_weak, twenty_lt_half_past.
  - apply phaseOf_Quiz in Hp as [_ Hlt]. split; [done |].
    intros [Hge _]. exfalso. by apply (Qclt_not_le _ _ Hlt).
  - split; [intros _ | done]. split; [| done].
    destruct (Qclt_le_dec h half_past_twenty) as [Hlt | Hge]; [| done].
    exfalso. destruct (Qclt_le_dec h (Qc_of_Z 20)) as [Hlt20 | Hge20].
    + assert (phaseOf h = Learning) as Hl by by apply phaseOf_Learning.
      congruence.
    + assert (phaseOf h = Quiz) as Hq by by apply phaseOf_Quiz.
      congruence.
Qed.

(** The clock only produces hours in range. *)
Lemma getCurrentUTCHour_range now :
  0 <= getUTCHours now < 24 -> 0 <= getUTCMinutes now < 60 ->
  (0 <= getCurrentUTCHour now)%Qc /\ (getCurrentUTCHour now < Qc_of_Z 24)%Qc.
Proof.
  intros [Hh0 Hh] [Hm0 Hm]. unfold getCurrentUTCHour.
  set (hours := Qc_of_Z (getUTCHours now)).
  set (minutes := Qc_of_Z (getUTCMinutes now)).
  assert (0 <= hours)%Qc as Hhours.
  { rewrite <- Z2Qc_inj_0. by apply (proj1 (Z2Qc_inj_le 0 _)). }
  assert (0 <= minutes / Qc_of_Z 60)%Qc as Hfrac0.
  { pose proof (Qcmult_le_compat_r 0 minutes (/ Qc_of_Z 60)) as Hle.
    rewrite Qcmult_0_l in Hle. apply Hle.
    - rewrite <- Z2Qc_inj_0. by apply (proj1 (Z2Qc_inj_le 0 _)).
    - vm_compute. discriminate. }
  assert (minutes / Qc_of_Z 60 < 1)%Qc as Hfrac1.
  { pose proof (Qcmult_lt_compat_r minutes (Qc_of_Z 60) (/ Qc_of_Z 60)) as Hlt.
    replace (Qc_of_Z 60 * / Qc_of_Z 60)%Qc with 1%Qc in Hlt
      by (by apply Qc_is_canon).
    apply Hlt; [reflexivity | by apply (proj1 (Z2Qc_inj_lt _ 60))]. }
  split.
  - rewrite <- (Qcplus_0_l 0). by apply Qcplus_le_compat.
  - apply Qclt_le_trans with (hours + 1)%Qc.
    + by apply Qcplus_lt_mono_l.
    + unfold hours. rewrite <- Z2Qc_inj_1, <- Z2Qc_inj_add.
      apply (proj1 (Z2Qc_inj_le _ 24)). lia.
Qed.

End PhaseFacts.

(** ** Scoring loop *)

Section ScoreFacts.
Import Store Server Spec.

Lemma num_add_0_r n : num_add n (Finite 0%Qc) = n.
Proof. destruct n as [q |]; [| done]. cbn. by rewrite Qcplus_0_r. Qed.

Lemma num_add_0_l n : num_add (Finite 0%Qc) n = n.
Proof. destruct n as [q |]; [| done]. cbn. by rewrite Qcplus_0_l. Qed.

Lemma num_add_comm a b : num_add a b = num_add b a.
Proof. destruct a, b; cbn; try done. by rewrite Qcplus_comm. Qed.

Lemma num_add_assoc a b c : num_add a (num_add b c) = num_add (num_add a b) c.
Proof. destruct a, b, c; cbn; try done. by rewrite Qcplus_assoc. Qed.

Lemma score_entry_unfold qs time c t k a :
  score_entry qs time (c, t) (k, a)
  = (c + (if answered_correctly qs (k, a) then 1 else 0),
     num_add t (contribution time k)).
Proof.
  unfold score_entry, answered_correctly, contribution. simpl. f_equal.
  - destruct (find_question qs k); [case_bool_decide |]; lia.
  - destruct (get_property time k) as [v | |]; [| done |].
    + case_bool_decide as Hv; [| done]. by rewrite Hv, num_add_0_r.
    + by rewrite num_add_0_r.
Qed.

Lemma score_fold qs time l c t :
  fold_left (score_entry qs time) l (c, t)
  = (c + Z.of_nat (length (filter (fun e => answered_correctly qs e) l)),
     num_add t (sum_Number (contribution time <$> l.*1))).
Proof.
  revert c t. induction l as [| [k a] l IH]; intros c t.
  - simpl. f_equal; [lia | by rewrite num_add_0_r].
  - cbn [fold_left]. rewrite score_entry_unfold, IH.
    rewrite filter_cons. cbn [fmap list_fmap fst sum_Number foldr].
    f_equal.
    + destruct (answered_correctly qs (k, a)).
      * rewrite decide_True by done. cbn [length]. lia.
      * rewrite decide_False by (by intros []). lia.
    + by rewrite num_add_assoc.
Qed.

Lemma sum_Qc_Permutation l l' : l ≡ₚ l' -> sum_Qc l = sum_Qc l'.
Proof.
  induction 1 as [| x l l' _ IH | x y l | l l' l'' _ IH _ IH'];
    cbn [sum_Qc foldr].
  - reflexivity.
  - fold (sum_Qc l) (sum_Qc l'). by rewrite IH.
  - by rewrite !Qcplus_assoc, (Qcplus_comm y x).
  - by rewrite IH.
Qed.

Lemma sum_Number_Permutation l l' : l ≡ₚ l' -> sum_Number l = sum_Number l'.
Proof.
  induction 1 as [| x l l' _ IH | x y l | l l' l'' _ IH _ IH'];
    cbn [sum_Number foldr].
  - reflexivity.
  - fold (sum_Number l) (sum_Number l'). by rewrite IH.
  - by rewrite !num_add_assoc, (num_add_comm y x).
  - by rewrite IH.
Qed.

(** The loop gives the same two numbers in whatever order the entries of
    [answers] are visited. *)
Lemma score_any_order qs time l l' acc :
  l ≡ₚ l' ->
  fold_left (score_entry qs time) l acc
  = fold_left (score_entry qs time) l' acc.
Proof.
  intros Hperm. destruct acc as [c t]. rewrite !score_fold. f_equal.
  - by rewrite Hperm.
  - f_equal. apply sum_Number_Permutation. by rewrite Hperm.
Qed.

Lemma score_unfold qs answers time :
  score qs answers time
  = (Z.of_nat (length (filter (fun e => answered_correctly qs e)
                              (map_to_list answers))),
     sum_Number (contribution time <$> keys answers)).
Proof.
  unfold score, keys. rewrite score_fold. f_equal.
  by rewrite num_add_0_l.
Qed.

Lemma sum_Number_finite (l : list string) (time : gmap string Qc) :
  (forall k, k ∈ l -> time !! k = None -> k ∉ object_prototype) ->
  sum_Number (contribution time <$> l) = Finite (sum_Qc (elapsed time <$> l)).
Proof.
  induction l as [| k l IH]; intros Hown; [done |].
  cbn [fmap list_fmap sum_Number foldr sum_Qc].
  fold (sum_Number (contribution time <$> l)).
  rewrite IH by (intros k' Hk'; apply Hown; by right).
  unfold contribution, get_property, elapsed.
  destruct (time !! k) as [v |] eqn:Hk; [done |].
  rewrite bool_decide_eq_false_2; [done |]. apply Hown; [by left | done].
Qed.

(** When no key of [answers] is read from the prototype, the total of an
    attempt is the sum, over the keys of [answers], of the entry of the
    time mapping for that key, zero when there is none; an entry of the
    time mapping under a key that [answers] does not have then changes
    nothing. *)
Lemma total_over_own_entries qs (answers : gmap string string)
    (time : gmap string Qc) :
  own_timed answers time ->
  (score qs answers time).2 = Finite (sum_Qc (elapsed time <$> keys answers))
  /\ (forall k v, answers !! k = None ->
        (score qs answers (<[k := v]> time)).2 = (score qs answers time).2).
Proof.
  intros Hown.
  split; [rewrite score_unfold; by apply sum_Number_finite |].
  intros k v Hk. rewrite !score_unfold. cbn [snd]. f_equal.
  apply list_fmap_ext. intros i k' Hi. unfold contribution, get_property.
  rewrite lookup_insert_ne; [done |]. intros <-.
  apply list_elem_of_lookup_2 in Hi. unfold keys in Hi.
  apply list_elem_of_fmap in Hi as ([k0 a] & -> & Hin).
  apply elem_of_map_to_list in Hin. simpl in Hk. congruence.
Qed.

Lemma find_question_Some qs k q :
  find_question qs k = Some q -> q ∈ qs /\ word q = k.
Proof.
  unfold find_question. intros Hf. apply find_some in Hf as [Hin Hw].
  split; [by apply list_elem_of_In | by apply bool_decide_eq_true in Hw].
Qed.

Lemma find_question_None qs k :
  find_question qs k = None <-> forall q, q ∈ qs -> word q <> k.
Proof.
  unfold find_question. split.
  - intros Hf q Hin. apply list_elem_of_In in Hin.
    pose proof (find_none _ _ Hf q Hin) as Hq. simpl in Hq.
    by apply bool_decide_eq_false in Hq.
  - intros Hall. destruct (find _ qs) as [q |] eqn:Hf; [| done].
    apply find_some in Hf as [Hin Hw]. apply bool_decide_eq_true in Hw.
    apply list_elem_of_In in Hin. by destruct (Hall q Hin).
Qed.

Lemma find_question_first qs k q :
  find_question qs k = Some q <-> first_with_word qs k q.
Proof.
  unfold find_question, first_with_word. split.
  - induction qs as [| p qs IH]; [done |]. cbn [find].
    case_bool_decide as Hp.
    + intros [= ->]. exists [], qs. by repeat split.
    + intros Hf. destruct (IH Hf) as (before & after & -> & Hw & Hall).
      exists (p :: before), after. repeat split; [done |].
      by apply Forall_cons.
  - intros (before & after & -> & Hw & Hall).
    induction Hall as [| p before Hp _ IH]; cbn [app find].
    + by rewrite bool_decide_eq_true_2.
    + by rewrite bool_decide_eq_false_2.
Qed.

Lemma find_question_unique qs q :
  NoDup (word <$> qs) -> q ∈ qs -> find_question qs (word q) = Some q.
Proof.
  unfold find_question. induction qs as [| p qs IH]; intros Hnd Hin.
  - by apply elem_of_nil in Hin.
  - cbn [fmap list_fmap] in Hnd. apply NoDup_cons in Hnd as [Hp Hnd].
    cbn [find]. apply elem_of_cons in Hin as [-> | Hin].
    + by rewrite bool_decide_eq_true_2.
    + rewrite bool_decide_eq_false_2; [by apply IH |].
      intros Heq. apply Hp. rewrite Heq. by apply list_elem_of_fmap_2.
Qed.

Lemma answered_correctly_exists qs k a :
  NoDup (word <$> qs) ->
  answered_correctly qs (k, a) = true
  <-> exists q, q ∈ qs /\ word q = k /\ correct q = a.
Proof.
  intros Hnd. unfold answered_correctly. cbn [fst snd]. split.
  - destruct (find_question qs k) as [q |] eqn:Hf; [| done].
    intros Ha%bool_decide_eq_true.
    apply find_question_Some in Hf as [Hin Hw]. eauto.
  - intros (q & Hin & <- & <-).
    rewrite (find_question_unique qs q Hnd Hin).
    by apply bool_decide_eq_true_2.
Qed.

End ScoreFacts.

(** ** Submission handler *)

Section SubmitFacts.
Import Duration Store Server Spec.

Lemma filter_no_email us e :
  (forall u, u ∈ us -> email u <> e) ->
  filter (fun v => email v = e) us = [].
Proof.
  induction us as [| v us IH]; intros Hall; [done |].
  rewrite filter_cons, decide_False by (apply Hall; left).
  apply IH. intros u Hu. apply Hall. by right.
Qed.

Lemma filter_unique_email us u :
  unique_emails us -> u ∈ us ->
  filter (fun v => email v = email u) us = [u].
Proof.
  unfold unique_emails. induction us as [| v us IH]; intros Hnd Hin.
  - by apply elem_of_nil in Hin.
  - cbn [fmap list_fmap] in Hnd. apply NoDup_cons in Hnd as [Hv Hnd].
    rewrite filter_cons. apply elem_of_cons in Hin as [-> | Hin].
    + rewrite decide_True by done. f_equal.
      apply filter_no_email. intros x Hx Heq. apply Hv.
      rewrite <- Heq. by apply list_elem_of_fmap_2.
    + rewrite decide_False; [by apply IH |].
      intros Heq. apply Hv. rewrite Heq. by apply list_elem_of_fmap_2.
Qed.

(** Runs a validated submission to its end, one goal per outcome of the
    three store calls and per number of records found for the email. *)
Ltac run_submission fs us Hsc :=
  destruct fs as [| [] [| [] [| [] ?]]];
  unfold try_catch, bind, await, select_questions, select_user_single,
    round_trip;
  cbn [faults questions users words logged checked ret throw fst snd];
  rewrite ?Hsc;
  cbn [faults questions users words logged checked ret throw data];
  try (destruct (filter _ us) as [| ? [| ? ?]]);
  unfold upsert, bind, await, update_users, insert_user, round_trip;
  cbn [faults questions users words calls logged checked ret throw fst snd
       data with_users].

(** The outcome of a submission that passes validation against a store
    that answers its three calls. *)
Lemma submit_runs body c e answers time w :
  req_email body = Present (String c e) ->
  req_answers body = Present answers ->
  req_time body = Present time ->
  reliable 3 w ->
  let sc := score (questions w) answers time in
  exists w',
    post_api_submit body w
    = (Status200 (SubmitBody sc.1 (size answers) (interval_text sc.2)), w')
    /\ words w' = words w /\ questions w' = questions w
    /\ users w'
       = match filter (fun u => email u = String c e) (users w) with
         | [existing] =>
             map (fun v =>
                    if bool_decide (email v = String c e)
                    then apply_patch
                           (SetScore (number_of_correct_ans existing + sc.1)
                              (interval_text
                    (num_add (Finite (intervalToMs (Store.time existing)))
                             sc.2)))
                           v
                    else v)
                 (users w)
         | _ =>
             users w ++
             [{| email := String c e; number_of_correct_ans := sc.1;
                 Store.time := Some (interval_text sc.2); rank := 0 |}]
         end.
Proof.
  intros Hemail Hanswers Htime Hrel sc. subst sc.
  unfold post_api_submit. rewrite Hemail, Hanswers, Htime.
  destruct w as [us ws qs fs cs]. unfold reliable in Hrel. cbn [faults] in Hrel.
  cbn [questions users words].
  destruct (score qs answers time) as [n t] eqn:Hsc. cbn [fst snd].
  run_submission fs us Hsc; try discriminate Hrel; eauto.
Qed.

(** A submission that passes validation is never answered with status
    400, whatever the store does. *)
Lemma validated_not_rejected body c e answers time w message w' :
  req_email body = Present (String c e) ->
  req_answers body = Present answers ->
  req_time body = Present time ->
  post_api_submit body w <> (Status400 message, w').
Proof.
  intros Hemail Hanswers Htime.
  unfold post_api_submit. rewrite Hemail, Hanswers, Htime.
  destruct w as [us ws qs fs cs].
  destruct (score qs answers time) as [n t] eqn:Hsc.
  run_submission fs us Hsc; discriminate.
Qed.

Lemma named_update p f us :
  named us ->
  named (map (fun u => if selects f u then apply_patch p u else u) us).
Proof.
  intros Hus u (v & <- & Hv%list_elem_of_In)%list_elem_of_In%in_map_iff.
  specialize (Hus v Hv). by destruct (selects f v), p.
Qed.

Lemma named_insert us u : named us -> email u <> "" -> named (us ++ [u]).
Proof.
  intros Hus Hu v [Hv | ->%list_elem_of_singleton]%elem_of_app; auto.
Qed.

(** No submission ever stores a record without an email, whatever the
    store does. *)
Lemma submit_keeps_named body w :
  named (users w) -> named (users (post_api_submit body w).2).
Proof.
  intros Hnamed. unfold post_api_submit.
  destruct (req_email body) as [| | | | | [| c e]],
    (req_answers body) as [| | | | | answers],
    (req_time body) as [| | | | | time]; try exact Hnamed.
  destruct w as [us ws qs fs cs]. cbn [users] in Hnamed.
  destruct (score qs answers time) as [n t] eqn:Hsc.
  run_submission fs us Hsc;
    first [exact Hnamed | by apply named_update | by apply named_insert].
Qed.

Lemma unique_emails_same us u v :
  unique_emails us -> u ∈ us -> v ∈ us -> email u = email v -> u = v.
Proof.
  unfold unique_emails. induction us as [| x us IH]; intros Hnd Hu Hv Heq.
  - by apply elem_of_nil in Hu.
  - cbn [fmap list_fmap] in Hnd. apply NoDup_cons in Hnd as [Hx Hnd].
    apply elem_of_cons in Hu as [-> | Hu];
      apply elem_of_cons in Hv as [-> | Hv]; [done | | | by apply IH].
    + destruct Hx. rewrite Heq. by apply list_elem_of_fmap_2.
    + destruct Hx. rewrite <- Heq. by apply list_elem_of_fmap_2.
Qed.

(** When the store answers and no two records share an email, a
    submission for an email that has a record replaces that record by one
    whose count is the old count plus the count of the attempt and whose
    time is the old time, parsed, plus the milliseconds of the attempt,
    formatted; the other records stay.  A submission for an email without
    a record appends a record with the values of the attempt and rank
    0. *)
Lemma merge_policy body c e answers time w :
  req_email body = Present (String c e) ->
  req_answers body = Present answers ->
  req_time body = Present time ->
  reliable 3 w ->
  unique_emails (users w) ->
  let sc := score (questions w) answers time in
  let w' := (post_api_submit body w).2 in
  (forall existing, existing ∈ users w -> email existing = String c e ->
     let merged :=
       {| email := String c e;
          number_of_correct_ans := number_of_correct_ans existing + sc.1;
          Store.time :=
            Some (interval_text
                    (num_add (Finite (intervalToMs (Store.time existing)))
                             sc.2));
          rank := rank existing |} in
     merged ∈ users w'
     /\ users w'
        = map (fun v => if bool_decide (email v = String c e)
                        then merged else v) (users w))
  /\ ((forall u, u ∈ users w -> email u <> String c e) ->
      users w'
      = users w ++
        [{| email := String c e; number_of_correct_ans := sc.1;
            Store.time := Some (interval_text sc.2); rank := 0 |}]).
Proof.
  intros Hemail Hanswers Htime Hrel Huniq sc w'.
  destruct (submit_runs body c e answers time w Hemail Hanswers Htime Hrel)
    as (w1 & Hrun & _ & _ & Husers).
  assert (w' = w1) as -> by (subst w'; by rewrite Hrun).
  fold sc in Husers. split.
  - intros existing Hin Hmail merged.
    rewrite <- Hmail, (filter_unique_email _ _ Huniq Hin) in Husers.
    assert (users w1
            = map (fun v => if bool_decide (email v = String c e)
                            then merged else v) (users w)) as Hmap.
    { rewrite Husers. apply map_ext_in. intros v Hv%list_elem_of_In.
      rewrite Hmail. case_bool_decide as Hv'; [| done].
      rewrite <- Hmail in Hv'.
      rewrite (unique_emails_same _ _ _ Huniq Hv Hin Hv').
      subst merged. simpl. by rewrite Hmail. }
    split; [| exact Hmap]. rewrite Hmap.
    apply list_elem_of_In, in_map_iff. exists existing.
    rewrite bool_decide_eq_true_2 by done. split; [done |].
    by apply list_elem_of_In.
  - intros Hnone. by rewrite (filter_no_email _ _ Hnone) in Husers.
Qed.

(** C4, as amended.  A submission in which the email, the answers or
    the time mapping is falsy (absent, [null], [false], [0] or the empty
    string) is answered with status 400, and the world is left as it
    was: no store call is logged and no table changes. *)
Theorem falsy_fields_rejected body w :
  falsy_field body ->
  post_api_submit body w = (Status400 missing_fields, w)
  /\ calls (post_api_submit body w).2 = calls w
  /\ users (post_api_submit body w).2 = users w.
Proof.
  unfold falsy_field, falsy. intros Hfalsy.
  assert (post_api_submit body w = (Status400 missing_fields, w)) as Hrun.
  { unfold post_api_submit.
    destruct (req_email body) as [| | | | | [| c e]], (req_answers body),
      (req_time body); try reflexivity;
      exfalso; destruct Hfalsy as [? | [? | [? | ?]]];
      first [done | discriminate]. }
  by rewrite Hrun.
Qed.

(** No other submission is answered with status 400: an object, empty
    or not, passes the guard. *)
Lemma rejected_only_when_falsy body w message w' :
  post_api_submit body w = (Status400 message, w') -> falsy_field body.
Proof.
  unfold falsy_field, falsy. intros Hrun.
  destruct (req_email body) as [| | | | | [| c e]] eqn:Hemail; auto.
  destruct (req_answers body) as [| | | | | answers] eqn:Hanswers; auto 6.
  destruct (req_time body) as [| | | | | time] eqn:Htime; auto 6.
  by destruct (validated_not_rejected body c e answers time w message w').
Qed.

(** C8, as amended.  The count reported for an attempt is the number
    of entries of [answers] for which the first question with the word
    of the entry has the answer of the entry as its accepted answer.  A
    word without a question adds nothing and the request is answered
    with status 200 all the same. *)
Theorem correct_count body c e answers time w :
  req_email body = Present (String c e) ->
  req_answers body = Present answers ->
  req_time body = Present time ->
  reliable 3 w ->
  exists counted,
    (forall k a,
       (k, a) ∈ counted
       <-> answers !! k = Some a
           /\ exists q, first_with_word (questions w) k q /\ correct q = a)
    /\ NoDup counted
    /\ (score (questions w) answers time).1 = Z.of_nat (length counted)
    /\ (exists t w',
          post_api_submit body w
          = (Status200 (SubmitBody (Z.of_nat (length counted))
                                   (size answers) t), w'))
    /\ (forall k a, answers !! k = None ->
          (forall q, q ∈ questions w -> word q <> k) ->
          (score (questions w) (<[k := a]> answers) time).1
          = (score (questions w) answers time).1).
Proof.
  intros Hemail Hanswers Htime Hrel.
  set (counted := filter (fun entry => answered_correctly (questions w) entry)
                         (map_to_list answers)).
  assert ((score (questions w) answers time).1 = Z.of_nat (length counted))
    as Hn by (by rewrite score_unfold).
  exists counted. split; [| split; [| split; [exact Hn | split]]].
  - intros k a. unfold counted.
    rewrite list_elem_of_filter, elem_of_map_to_list.
    unfold answered_correctly. cbn [fst snd]. split.
    + intros [Hk Hin]. split; [exact Hin |].
      destruct (find_question (questions w) k) as [q |] eqn:Hf; [| done].
      exists q. split; [by apply find_question_first |].
      apply Is_true_true in Hk. by apply bool_decide_eq_true in Hk.
    + intros [Hin (q & Hq & Ha)]. split; [| exact Hin].
      apply find_question_first in Hq. rewrite Hq.
      apply Is_true_true. by apply bool_decide_eq_true_2.
  - apply NoDup_filter, NoDup_map_to_list.
  - destruct (submit_runs body c e answers time w Hemail Hanswers Htime Hrel)
      as (w1 & Hrun & _). rewrite Hn in Hrun. eauto.
  - intros k a Hk Hnone. rewrite !score_unfold. cbn [fst]. f_equal.
    rewrite (map_to_list_insert answers k a Hk), filter_cons.
    rewrite decide_False; [done |].
    unfold answered_correctly. cbn [fst].
    rewrite (proj2 (find_question_None (questions w) k) Hnone). intros [].
Qed.

End SubmitFacts.

(** ** Read handler *)

Section OrderFacts.
Import Store Server Spec.

Variable leb : option string -> option string -> bool.
Hypothesis leb_linear : linear leb.

Lemma precedes_spec u v : precedes leb u v = true <-> ranks_before leb u v.
Proof.
  unfold precedes, ranks_before.
  rewrite orb_true_iff, andb_true_iff, Z.ltb_lt, Z.eqb_eq. tauto.
Qed.

Lemma precedes_total u v : precedes leb u v = false -> ranks_before leb v u.
Proof.
  destruct leb_linear as [Htotal _].
  unfold precedes, ranks_before.
  rewrite orb_false_iff, andb_false_iff, Z.ltb_ge, Z.eqb_neq.
  intros [Hle [Hne | Hleb]]; [left; lia |].
  destruct (Z.eq_dec (number_of_correct_ans u) (number_of_correct_ans v))
    as [Heq | Hne]; [| left; lia].
  right. split; [done |].
  destruct (Htotal (time u) (time v)) as [Huv | Hvu]; congruence.
Qed.

Lemma ranks_before_trans u v x :
  ranks_before leb u v -> ranks_before leb v x -> ranks_before leb u x.
Proof.
  destruct leb_linear as [_ Htrans]. unfold ranks_before.
  intros [Huv | [Huv Htuv]] [Hvx | [Hvx Htvx]];
    [left; lia | left; lia | left; lia |].
  right. split; [lia | eauto].
Qed.

Lemma place_Permutation u l : place leb u l ≡ₚ u :: l.
Proof.
  induction l as [| v l IH]; [done |].
  cbn [place]. destruct (precedes leb u v); [done |].
  rewrite IH. apply Permutation_swap.
Qed.

Lemma place_sorted u l :
  StronglySorted (ranks_before leb) l ->
  StronglySorted (ranks_before leb) (place leb u l).
Proof.
  induction 1 as [| v l Hsorted IH Hall]; cbn [place].
  - by repeat constructor.
  - destruct (precedes leb u v) eqn:Huv.
    + apply precedes_spec in Huv.
      constructor; [by constructor |].
      constructor; [done |].
      eapply Forall_impl; [exact Hall |].
      intros x Hvx. by apply ranks_before_trans with v.
    + apply precedes_total in Huv. constructor; [done |].
      rewrite place_Permutation. by constructor.
Qed.

Lemma order_users_Permutation us : order_users leb us ≡ₚ us.
Proof.
  induction us as [| u us IH]; [done |].
  cbn [order_users foldr]. rewrite place_Permutation.
  by constructor.
Qed.

Lemma order_users_sorted us :
  StronglySorted (ranks_before leb) (order_users leb us).
Proof.
  induction us as [| u us IH]; [constructor |].
  by apply place_sorted.
Qed.

Lemma ranks_before_with_rank r s u v :
  ranks_before leb u v -> ranks_before leb (with_rank r u) (with_rank s v).
Proof. done. Qed.

Lemma ranked_sorted (f : nat -> Z) l :
  StronglySorted (ranks_before leb) l ->
  StronglySorted (ranks_before leb) (imap (fun i u => with_rank (f i) u) l).
Proof.
  intros Hsorted. revert f.
  induction Hsorted as [| u l Hsorted IH Hall]; intros f; [constructor |].
  rewrite imap_cons. constructor; [apply (IH (f ∘ S)) |].
  apply Forall_forall. intros x (i & v & -> & Hv)%elem_of_lookup_imap.
  apply ranks_before_with_rank.
  rewrite Forall_forall in Hall. apply Hall.
  by apply list_elem_of_lookup_2 in Hv.
Qed.

End OrderFacts.

Section ReadFacts.
Import Duration Clock Store Server Spec.

Lemma unranked_ranked (f : nat -> Z) l :
  unranked <$> imap (fun i u => with_rank (f i) u) l = unranked <$> l.
Proof.
  revert f. induction l as [| u l IH]; intros f; [done |].
  rewrite imap_cons. cbn [fmap list_fmap]. f_equal. apply (IH (f ∘ S)).
Qed.

(** The rank updates of the ranking branch never throw, whatever the
    store answers. *)
Lemma rank_updates_return (l : list User) w :
  exists w',
    for_of l (fun user =>
      bind (await (update_users (SetRank (rank user)) (EmailEq (email user))))
           (fun _ => ret tt)) w
    = (Returned tt, w').
Proof.
  revert w. induction l as [| u l IH]; intros w; [by eexists |].
  cbn [for_of]. unfold bind at 1. unfold bind at 1, await.
  destruct (update_users _ _ w) as [r w1]. cbn [ret].
  apply IH.
Qed.

Lemma update_users_keeps_named p f w :
  named (users w) -> named (users (update_users p f w).2).
Proof.
  intros Hnamed. unfold update_users, round_trip.
  destruct (faults w) as [| [] fs]; cbn [snd users logged with_users];
    first [exact Hnamed | by apply named_update].
Qed.

Lemma rank_updates_keep_named (l : list User) w :
  named (users w) ->
  named (users (for_of l (fun user =>
    bind (await (update_users (SetRank (rank user)) (EmailEq (email user))))
         (fun _ => ret tt)) w).2).
Proof.
  revert w. induction l as [| u l IH]; intros w Hnamed; [exact Hnamed |].
  cbn [for_of]. unfold bind at 1. unfold bind at 1, await.
  pose proof (update_users_keeps_named (SetRank (rank u)) (EmailEq (email u))
                w Hnamed) as Hstep.
  destruct (update_users _ _ w) as [r w1]. cbn [ret]. by apply IH.
Qed.

(** Nor does a read: together with [submit_keeps_named], every table the
    two routes can reach from an empty one has an email in every
    record. *)
Lemma read_keeps_named leb now email_param w :
  named (users w) ->
  named (users (get_api_data leb now email_param w).2).
Proof.
  intros Hnamed. unfold get_api_data.
  destruct (phaseOf (getCurrentUTCHour now)).
  - unfold try_catch, bind at 1. unfold await at 1.
    pose proof (update_users_keeps_named (SetRank 0) (EmailNeq "") w Hnamed)
      as Hreset.
    destruct (update_users _ _ w) as [r w1]. cbn [snd] in Hreset.
    unfold bind, await, select_words, round_trip.
    destruct (faults w1) as [| [] fs]; exact Hreset.
  - unfold try_catch, bind, await, select_questions, round_trip.
    destruct (faults w) as [| [] fs]; exact Hnamed.
  - unfold try_catch, bind at 1. unfold await at 1.
    unfold select_users_ordered, round_trip.
    destruct (faults w) as [| [] fs]; [| exact Hnamed |];
      unfold bind at 1; cbn [checked ret]; unfold bind at 1;
      match goal with
      | |- context [for_of ?l ?body ?w0] =>
          pose proof (rank_updates_keep_named l w0 Hnamed) as Hloop;
          destruct (rank_updates_return l w0) as [w1 Hrun]
      end; unfold bind in Hloop, Hrun |- *; rewrite Hrun in Hloop |- *;
      exact Hloop.
Qed.

Lemma ranking_runs leb now email_param w :
  phaseOf (getCurrentUTCHour now) = Ranking ->
  reliable 1 w ->
  let leaderboard :=
    imap (fun index user => with_rank (Z.of_nat index + 1) user)
         (order_users leb (users w)) in
  exists w',
    get_api_data leb now email_param w
    = (Status200
         (RankingsBody
            (find (fun u => bool_decide (email u = email_param)) leaderboard)
            leaderboard), w').
Proof.
  intros Hphase Hrel leaderboard.
  unfold get_api_data. rewrite Hphase.
  unfold try_catch, bind at 1. unfold await at 1.
  unfold select_users_ordered, round_trip.
  unfold reliable in Hrel.
  destruct w as [us ws qs fs cs]. cbn [faults users] in *.
  destruct fs as [| [] fs]; try discriminate Hrel; cbn [logged users];
    unfold bind at 1; cbn [checked ret]; unfold bind at 1;
    match goal with
    | |- context [for_of ?l ?body ?w] =>
        destruct (rank_updates_return l w) as [w1 Hloop]
    end; unfold bind in Hloop |- *; rewrite Hloop; eauto.
Qed.


(** C2.  In the Ranking phase the leaderboard returned holds every
    record of the users table, ordered by count descending and, among
    equal counts, by time ascending; the rank of each element is its
    position counted from 1; and the user returned is an element of the
    leaderboard with the requested email, absent exactly when no element
    has that email. *)
Theorem ranking_leaderboard leb now email_param w :
  linear leb ->
  phaseOf (getCurrentUTCHour now) = Ranking ->
  reliable 1 w ->
  exists user leaderboard w',
    get_api_data leb now email_param w
    = (Status200 (RankingsBody user leaderboard), w')
    /\ unranked <$> leaderboard ≡ₚ unranked <$> users w
    /\ StronglySorted (ranks_before leb) leaderboard
    /\ (forall i u, leaderboard !! i = Some u -> rank u = Z.of_nat i + 1)
    /\ (forall u, user = Some u -> u ∈ leaderboard /\ email u = email_param)
    /\ (user = None <-> forall u, u ∈ leaderboard -> email u <> email_param).
Proof.
  intros Hlinear Hphase Hrel.
  destruct (ranking_runs leb now email_param w Hphase Hrel) as [w' Hrun].
  eexists _, _, w'. split; [exact Hrun |].
  split; [| split; [| split; [| split]]].
  - rewrite (unranked_ranked (fun i => Z.of_nat i + 1)).
    by rewrite order_users_Permutation.
  - apply (ranked_sorted leb (fun i => Z.of_nat i + 1)).
    by apply order_users_sorted.
  - intros i u (v & _ & ->)%list_lookup_imap_Some. reflexivity.
  - intros u [Hin Hu]%find_some. split; [by apply list_elem_of_In |].
    by apply bool_decide_eq_true in Hu.
  - split.
    + intros Hnone u Hin%list_elem_of_In.
      pose proof (find_none _ _ Hnone u Hin) as Hu. simpl in Hu.
      by apply bool_decide_eq_false in Hu.
    + intros Hall.
      destruct (find _ _) as [u |] eqn:Hfind; [| done].
      apply find_some in Hfind as [Hin%list_elem_of_In Hu].
      apply bool_decide_eq_true in Hu. by destruct (Hall u Hin).
Qed.

Lemma unranked_reset (us : list User) :
  map unranked
      (map (fun u => if selects (EmailNeq "") u
                     then apply_patch (SetRank 0) u else u) us)
  = map unranked us.
Proof.
  rewrite map_map. apply map_ext. intros u. by destruct (selects _ u).
Qed.

Lemma reset_all_zero (us : list User) u :
  named us ->
  u ∈ map (fun u => if selects (EmailNeq "") u
                    then apply_patch (SetRank 0) u else u) us ->
  rank u = 0.
Proof.
  intros Hne (v & <- & Hv%list_elem_of_In)%list_elem_of_In%in_map_iff.
  cbn [selects]. by rewrite bool_decide_eq_false_2 by by apply Hne.
Qed.

(** A read in the Learning phase changes no field of any user record
    other than the rank and leaves the other tables alone; when the
    reset goes through on a table whose records all carry an email,
    every record has rank 0 afterwards; and the words returned are read
    after the reset, from the unchanged words table. *)
Lemma learning_resets_ranks leb now email_param w :
  phaseOf (getCurrentUTCHour now) = Learning ->
  let response := (get_api_data leb now email_param w).1 in
  let w' := (get_api_data leb now email_param w).2 in
  (map unranked (users w') = map unranked (users w)
   /\ words w' = words w /\ questions w' = questions w)
  /\ (reliable 1 w -> named (users w) ->
      forall u, u ∈ users w' -> rank u = 0)
  /\ (forall data, response = Status200 (WordsBody data) ->
      data = words w
      /\ calls w'
         = calls w ++ [UpdateUsers (SetRank 0) (EmailNeq "");
                       SelectAll WordsTable])
  /\ (response = Status200 (WordsBody (words w))
      \/ exists message, response = Status500 message).
Proof.
  intros Hphase response w'. subst response w'.
  unfold get_api_data. rewrite Hphase.
  destruct w as [us ws qs fs cs].
  unfold try_catch, bind, await, update_users, select_words, round_trip,
    reliable.
  cbn [faults users words questions calls].
  destruct fs as [| [] [| [] fs]];
    cbn [faults users words questions calls logged with_users checked ret
         throw fst snd take forallb negb andb];
    rewrite <- ?app_assoc; cbn [app];
    (split; [rewrite ?unranked_reset; done |]);
    (split; [try (intros ?; discriminate);
             intros _ Hne u Hu; by apply (reset_all_zero us) |]);
    (split; [intros data Hdata; by simplify_eq | eauto]).
Qed.

End ReadFacts.


(** ** Durations: sign, leading text, formatting *)

Section DurationMore.
Import Duration.

Lemma span_digits_digits s : all_digits (span_digits s).1 = true.
Proof.
  induction s as [| c s IH]; [reflexivity |].
  cbn [span_digits]. destruct (is_digit c) eqn:Hc; [| reflexivity].
  destruct (span_digits s) as [ds r]. cbn [fst all_digits] in *.
  by rewrite Hc, IH.
Qed.

Lemma digit_value_nonneg c : is_digit c = true -> 0 <= digit_value c.
Proof.
  unfold is_digit, digit_value. cbv zeta.
  intros [Hlo _]%andb_prop. apply Nat.leb_le in Hlo. lia.
Qed.

Lemma parse_digits_nonneg s acc :
  all_digits s = true -> 0 <= acc -> 0 <= parse_digits acc s.
Proof.
  revert acc. induction s as [| c s IH]; intros acc Hs Hacc; [exact Hacc |].
  cbn [all_digits parse_digits] in *. apply andb_prop in Hs as [Hc Hs].
  apply IH; [exact Hs |]. pose proof (digit_value_nonneg c Hc). lia.
Qed.

Lemma Qc_of_Z_nonneg z : 0 <= z -> (0 <= Qc_of_Z z)%Qc.
Proof.
  intros Hz. rewrite <- Z2Qc_inj_0. by apply (proj1 (Z2Qc_inj_le 0 z)).
Qed.

Lemma Qcinv_nonneg x : (0 <= x)%Qc -> (0 <= / x)%Qc.
Proof.
  unfold Qcle, Qcinv, Q2Qc. cbn [this]. rewrite !Qred_correct.
  apply Qinv_le_0_compat.
Qed.

Lemma Qcmult_nonneg x y : (0 <= x)%Qc -> (0 <= y)%Qc -> (0 <= x * y)%Qc.
Proof.
  intros Hx Hy. pose proof (Qcmult_le_compat_r 0 x y Hx Hy) as Hle.
  by rewrite Qcmult_0_l in Hle.
Qed.

Lemma parseInt_nonneg s : 0 <= parseInt s.
Proof.
  unfold parseInt. apply parse_digits_nonneg; [apply span_digits_digits | lia].
Qed.

Lemma parseFloat_nonneg s : (0 <= parseFloat s)%Qc.
Proof.
  unfold parseFloat.
  pose proof (span_digits_digits s) as Hwhole.
  destruct (span_digits s) as [whole r]. cbn [fst] in Hwhole.
  assert (0 <= Qc_of_Z (parse_digits 0 whole))%Qc as Hw.
  { apply Qc_of_Z_nonneg, parse_digits_nonneg; [exact Hwhole | lia]. }
  destruct (expect "." r) as [r' |]; [| exact Hw].
  pose proof (span_digits_digits r') as Hfrac.
  destruct (span_digits r') as [frac rest]. cbn [fst] in Hfrac.
  apply Qcplus_nonneg_nonneg; [exact Hw |].
  apply Qcmult_nonneg.
  - apply Qc_of_Z_nonneg, parse_digits_nonneg; [exact Hfrac | lia].
  - apply Qcinv_nonneg, Qc_of_Z_nonneg. apply Z.pow_nonneg. lia.
Qed.

Lemma intervalToMs_Some s :
  intervalToMs (Some s)
  = match timeMatch s with
    | Some (g1, g2, g3) =>
        ((Qc_of_Z (parseInt g1 * 3600 + parseInt g2 * 60) + parseFloat g3)
         * Qc_of_Z 1000)%Qc
    | None => 0%Qc
    end.
Proof. by destruct s. Qed.

Lemma intervalToMs_nonneg_any interval : (0 <= intervalToMs interval)%Qc.
Proof.
  destruct interval as [s |]; [| apply Qcle_refl].
  rewrite intervalToMs_Some.
  destruct (timeMatch s) as [[[g1 g2] g3] |]; [| apply Qcle_refl].
  apply Qcmult_nonneg; [| by apply Qc_of_Z_nonneg].
  apply Qcplus_nonneg_nonneg; [| apply parseFloat_nonneg].
  apply Qc_of_Z_nonneg.
  pose proof (parseInt_nonneg g1). pose proof (parseInt_nonneg g2). lia.
Qed.

(** X1.  Whatever the text, the parser never returns a negative number
    of milliseconds: the pattern has no place for a sign. *)
Theorem intervalToMs_never_negative interval :
  (0 <= intervalToMs interval)%Qc.
Proof. apply intervalToMs_nonneg_any. Qed.

Lemma expect_colon_free s :
  colon_free s = true -> expect ":" (span_digits s).2 = None.
Proof.
  induction s as [| a s IH]; [reflexivity |].
  cbn [colon_free span_digits]. intros [Ha Hs]%andb_prop.
  destruct (is_digit a).
  - specialize (IH Hs). by destruct (span_digits s).
  - cbn [snd expect]. by apply negb_true_iff in Ha as ->.
Qed.

Lemma timeMatch_colon_free s : colon_free s = true -> timeMatch s = None.
Proof.
  induction s as [| a s IH]; intros Hs; [reflexivity |].
  assert (match_here (String a s) = None) as Hhere.
  { unfold match_here. pose proof (expect_colon_free _ Hs) as Hexp.
    destruct (span_digits (String a s)) as [g r]. cbn [snd] in Hexp.
    rewrite Hexp. by destruct (is_empty g). }
  cbn [timeMatch]. rewrite Hhere. apply IH.
  cbn [colon_free] in Hs. by apply andb_prop in Hs as [_ Hs].
Qed.

(** X2.  A text in which no colon occurs holds no match for the pattern
    and parses to zero; so does an absent text. *)
Theorem colon_free_text_is_zero s :
  colon_free s = true ->
  intervalToMs (Some s) = 0%Qc /\ intervalToMs None = 0%Qc.
Proof.
  intros Hs. split; [| reflexivity].
  by rewrite intervalToMs_Some, timeMatch_colon_free.
Qed.

(** X3.  Leading text without a colon that ends in a character other
    than a digit or a colon is skipped by the unanchored pattern: the
    result is that of the rest of the text.  A leading minus sign is
    dropped this way. *)
Theorem leading_text_skipped p c t :
  colon_free p = true -> is_digit c = false -> Ascii.eqb c ":" = false ->
  intervalToMs (Some (p +:+ String c t)) = intervalToMs (Some t).
Proof.
  intros Hp Hc Hcolon. rewrite !intervalToMs_Some.
  by rewrite timeMatch_skip.
Qed.

(** X4.  Formatting a non-negative, possibly fractional number of
    milliseconds and parsing it back gives the whole seconds below it,
    in milliseconds: the fraction of a second is dropped, never rounded
    up. *)
Theorem format_drops_fraction q :
  (0 <= q)%Qc ->
  intervalToMs (Some (intervalString q))
  = Qc_of_Z (floor (q / Qc_of_Z 1000)%Qc * 1000)
  /\ (intervalToMs (Some (intervalString q)) <= q)%Qc.
Proof.
  intros Hq. split; [by apply parse_format_whole_seconds |].
  rewrite parse_format_whole_seconds by done.
  rewrite Z2Qc_inj_mul.
  assert (Qc_of_Z (floor (q / Qc_of_Z 1000)) <= q / Qc_of_Z 1000)%Qc as Hfl.
  { unfold floor, Qcle, Qc_of_Z. cbn [this]. apply Qfloor_le. }
  pose proof (Qcmult_le_compat_r _ _ (Qc_of_Z 1000) Hfl
                ltac:(vm_compute; discriminate)) as Hle.
  replace (q / Qc_of_Z 1000 * Qc_of_Z 1000)%Qc with q in Hle; [exact Hle |].
  field. vm_compute. discriminate.
Qed.

(** X5.  On the texts the formatter produces, parsing and formatting
    again changes nothing. *)
Theorem format_parse_format q :
  (0 <= q)%Qc ->
  intervalString (intervalToMs (Some (intervalString q))) = intervalString q.
Proof.
  intros Hq. rewrite parse_format_whole_seconds by done.
  unfold intervalString at 1. rewrite floor_div_1000, Z.div_mul by lia.
  reflexivity.
Qed.

End DurationMore.

Section ShapeFacts.
Import Duration Invariants.

Lemma pretty_N_go_length_1 x s :
  (0 < x < 10)%N ->
  String.length (pretty_N_go x s) = S (String.length s).
Proof.
  intros [Hpos Hlt]. rewrite pretty_N_go_step by done.
  by rewrite (N.div_small x 10 Hlt), pretty_N_go_0.
Qed.

Lemma pretty_N_go_length_2 x s :
  (10 <= x < 100)%N ->
  String.length (pretty_N_go x s) = S (S (String.length s)).
Proof.
  intros [Hlo Hhi]. rewrite pretty_N_go_step by lia.
  rewrite pretty_N_go_length_1; [done |]. split.
  - apply N.div_str_pos. lia.
  - apply N.Div0.div_lt_upper_bound. lia.
Qed.

Lemma padStart_length s :
  String.length (padStart 2 "0" s) = Nat.max 2 (String.length s).
Proof. unfold padStart. by destruct s as [| a [| b s]]. Qed.

Lemma padStart_pretty_length z :
  0 <= z < 100 -> String.length (padStart 2 "0" (pretty z)) = 2%nat.
Proof.
  intros Hz. rewrite padStart_length.
  destruct z as [| p | p]; [done | | lia].
  unfold pretty, pretty_Z, pretty, pretty_positive, pretty, pretty_N.
  rewrite decide_False by done.
  destruct (decide (Z.pos p < 10)) as [Hsmall | Hbig].
  - rewrite pretty_N_go_length_1 by lia. reflexivity.
  - rewrite pretty_N_go_length_2 by lia. reflexivity.
Qed.

Lemma intervalString_shape q :
  (0 <= q)%Qc ->
  exists hh mm ss,
    intervalString q = clock_text hh mm ss None
    /\ numeral hh /\ numeral mm /\ numeral ss
    /\ (2 <= String.length hh)%nat
    /\ String.length mm = 2%nat /\ String.length ss = 2%nat
    /\ parse_digits 0 mm < 60 /\ parse_digits 0 ss < 60
    /\ parse_digits 0 hh * 3600 + parse_digits 0 mm * 60 + parse_digits 0 ss
       = floor (q / Qc_of_Z 1000)%Qc.
Proof.
  intros Hq. unfold intervalString.
  set (ts := floor (q / Qc_of_Z 1000)%Qc).
  assert (0 <= ts) as Hts by (by apply floor_nonneg).
  destruct (hms_recompose ts Hts) as (Hh & Hm & Hs & Hsum).
  assert (Z.rem ts 3600 / 60 < 60) as Hm60.
  { rewrite Z.rem_mod_nonneg by lia.
    pose proof (Z.mod_pos_bound ts 3600 ltac:(lia)).
    apply Z.div_lt_upper_bound; lia. }
  assert (Z.rem ts 60 < 60) as Hs60.
  { rewrite Z.rem_mod_nonneg by lia.
    pose proof (Z.mod_pos_bound ts 60 ltac:(lia)). lia. }
  exists (padStart 2 "0" (pretty (ts / 3600))),
    (padStart 2 "0" (pretty (Z.rem ts 3600 / 60))),
    (padStart 2 "0" (pretty (Z.rem ts 60))).
  rewrite !padStart_value, !pretty_nonneg_value by done.
  repeat split;
    try (apply padStart_numeral, pretty_nonneg_numeral; done);
    try (apply padStart_pretty_length; lia); try done.
  - unfold clock_text. by rewrite append_empty_r.
  - rewrite padStart_length. lia.
Qed.

Lemma intervalString_clock_shaped q :
  (0 <= q)%Qc -> clock_shaped (intervalString q).
Proof.
  intros Hq.
  destruct (intervalString_shape q Hq)
    as (hh & mm & ss & ? & ? & ? & ? & ? & ? & ? & ? & ? & _).
  exists hh, mm, ss. repeat split; done.
Qed.

(** X6.  For a non-negative number of milliseconds the formatter writes
    three fields of digits separated by colons: minutes and seconds of
    exactly two digits and below 60, hours of at least two digits and
    without a bound (no rollover into days); together they make up the
    whole seconds of the input. *)
Theorem format_is_clock_text q :
  (0 <= q)%Qc ->
  exists hh mm ss,
    intervalString q = clock_text hh mm ss None
    /\ numeral hh /\ numeral mm /\ numeral ss
    /\ (2 <= String.length hh)%nat
    /\ String.length mm = 2%nat /\ String.length ss = 2%nat
    /\ parse_digits 0 mm < 60 /\ parse_digits 0 ss < 60
    /\ parse_digits 0 hh * 3600 + parse_digits 0 mm * 60 + parse_digits 0 ss
       = floor (q / Qc_of_Z 1000)%Qc.
Proof. apply intervalString_shape. Qed.

End ShapeFacts.

(** ** The days prefix *)

Section DaysPrefix.
Import Duration Spec.

Lemma parse_digits_decimal s acc :
  parse_digits acc s = acc * 10 ^ Z.of_nat (String.length s) + decimal s.
Proof.
  revert acc. induction s as [| c s IH]; intros acc.
  - cbn. lia.
  - cbn [parse_digits decimal String.length]. rewrite IH.
    unfold digit_value. rewrite Nat2Z.inj_succ, Z.pow_succ_r by lia. ring.
Qed.

(** [decimal] reads back what the decimal printer writes. *)
Lemma decimal_pretty z : 0 <= z -> decimal (pretty z) = z.
Proof.
  intros Hz. rewrite <- (pretty_nonneg_value z Hz) at 2.
  rewrite parse_digits_decimal. lia.
Qed.




End DaysPrefix.

(** ** Phases by the clock *)

Section ClockFacts.
Import Clock.

Lemma sixty_pos : (0 < Qc_of_Z 60)%Qc.
Proof. reflexivity. Qed.

Lemma Qc_lt_times_60 x y : (x < y)%Qc <-> (x * Qc_of_Z 60 < y * Qc_of_Z 60)%Qc.
Proof.
  split; [apply Qcmult_lt_compat_r, sixty_pos |].
  intros Hlt. apply Qcnot_le_lt. intros Hle.
  apply (Qclt_not_le _ _ Hlt).
  apply Qcmult_le_compat_r; [exact Hle | apply Qclt_le_weak, sixty_pos].
Qed.

Lemma Qc_le_times_60 x y : (x <= y)%Qc <-> (x * Qc_of_Z 60 <= y * Qc_of_Z 60)%Qc.
Proof.
  split.
  - intros Hle.
    apply Qcmult_le_compat_r; [exact Hle | apply Qclt_le_weak, sixty_pos].
  - apply Qcmult_lt_0_le_reg_r, sixty_pos.
Qed.

(** The hour of the day, in minutes. *)
Lemma hour_in_minutes now :
  (getCurrentUTCHour now * Qc_of_Z 60)%Qc
  = Qc_of_Z (getUTCHours now * 60 + getUTCMinutes now).
Proof.
  unfold getCurrentUTCHour. rewrite Z2Qc_inj_add, Z2Qc_inj_mul.
  field. vm_compute. discriminate.
Qed.

Lemma half_in_minutes n :
  Qc_of_Z (n * 30) = (Qc_of_Z n / Qc_of_Z 2 * Qc_of_Z 60)%Qc.
Proof.
  rewrite Z2Qc_inj_mul.
  replace (Qc_of_Z 60) with (Qc_of_Z 30 * Qc_of_Z 2)%Qc
    by (by apply Qc_is_canon).
  field. vm_compute. discriminate.
Qed.

Lemma hour_lt now n :
  (getCurrentUTCHour now < Qc_of_Z n / Qc_of_Z 2)%Qc
  <-> getUTCHours now * 60 + getUTCMinutes now < n * 30.
Proof.
  rewrite Qc_lt_times_60, hour_in_minutes.
  replace (Qc_of_Z n / Qc_of_Z 2 * Qc_of_Z 60)%Qc with (Qc_of_Z (n * 30)).
  - symmetry. apply Z2Qc_inj_lt.
  - apply half_in_minutes.
Qed.

Lemma hour_ge now n :
  (Qc_of_Z n / Qc_of_Z 2 <= getCurrentUTCHour now)%Qc
  <-> n * 30 <= getUTCHours now * 60 + getUTCMinutes now.
Proof.
  rewrite Qc_le_times_60, hour_in_minutes.
  replace (Qc_of_Z n / Qc_of_Z 2 * Qc_of_Z 60)%Qc with (Qc_of_Z (n * 30)).
  - symmetry. apply Z2Qc_inj_le.
  - apply half_in_minutes.
Qed.

Lemma whole_hour n : Qc_of_Z n = (Qc_of_Z (2 * n) / Qc_of_Z 2)%Qc.
Proof. rewrite Z2Qc_inj_mul. field. vm_compute. discriminate. Qed.

(** X7.  Read off the clock, the phase depends on the hour and the
    minute only: Learning before 20:00, Quiz from 20:00 to 20:29, Ranking
    from 20:30 on. *)
Theorem phase_by_the_clock now :
  0 <= getUTCHours now < 24 -> 0 <= getUTCMinutes now < 60 ->
  let phase := phaseOf (getCurrentUTCHour now) in
  (phase = Learning <-> getUTCHours now < 20)
  /\ (phase = Quiz <-> getUTCHours now = 20 /\ getUTCMinutes now < 30)
  /\ (phase = Ranking
      <-> 20 < getUTCHours now
          \/ (getUTCHours now = 20 /\ 30 <= getUTCMinutes now)).
Proof.
  intros Hh Hm phase.
  assert (phase = Learning <-> getUTCHours now < 20) as HL.
  { subst phase. rewrite phaseOf_Learning.
    rewrite (whole_hour 20), hour_lt.
    replace 0%Qc with (Qc_of_Z 0 / Qc_of_Z 2)%Qc
      by (apply Qc_is_canon; reflexivity).
    rewrite hour_ge. lia. }
  assert (phase = Quiz <-> getUTCHours now = 20 /\ getUTCMinutes now < 30)
    as HQ.
  { subst phase. rewrite phaseOf_Quiz.
    rewrite (whole_hour 20), hour_ge. unfold half_past_twenty.
    rewrite hour_lt. lia. }
  split; [exact HL |]. split; [exact HQ |].
  destruct phase; split; intros Hcase; try done.
  - exfalso. apply proj1 in HL. specialize (HL eq_refl). lia.
  - exfalso. apply proj1 in HQ. specialize (HQ eq_refl). lia.
  - destruct (Z_lt_le_dec (getUTCHours now) 20) as [Hlt | Hge].
    + apply HL in Hlt. discriminate.
    + destruct (Z_lt_le_dec 20 (getUTCHours now)); [by left |].
      right. split; [lia |].
      destruct (Z_lt_le_dec (getUTCMinutes now) 30) as [Hlt | ?]; [| done].
      assert (Ranking = Quiz) by (apply HQ; lia). discriminate.
Qed.

End ClockFacts.

(** ** Submissions: what is stored, what is called *)

Section SubmitMore.
Import Duration Store Server Spec Invariants.

Ltac run_submission_eq fs us Hsc Hfound :=
  destruct fs as [| [] [| [] [| [] ?]]];
  unfold try_catch, bind, await, select_questions, select_user_single,
    round_trip;
  cbn [faults questions users words logged checked ret throw fst snd];
  rewrite ?Hsc;
  cbn [faults questions users words logged checked ret throw data];
  try (destruct (filter _ us) as [| ? [| ? ?]] eqn:Hfound);
  unfold upsert, bind, await, update_users, insert_user, round_trip;
  cbn [faults questions users words calls logged checked ret throw fst snd
       data with_users selects].

(** What a submission can do to the tables, whatever the store answers:
    nothing, or, with a 200, one update of the record found or one
    insert. *)
Lemma submit_outcomes body w :
  let response := (post_api_submit body w).1 in
  let w' := (post_api_submit body w).2 in
  words w' = words w /\ questions w' = questions w
  /\ (users w' = users w
      \/ exists c e answers time_,
           req_email body = Present (String c e)
           /\ req_answers body = Present answers
           /\ req_time body = Present time_
           /\ let sc := score (questions w) answers time_ in
              response
              = Status200 (SubmitBody sc.1 (size answers)
                                      (interval_text sc.2))
              /\ ((exists existing,
                     filter (fun u => email u = String c e) (users w)
                     = [existing]
                     /\ users w'
                        = map (fun v =>
                                 if bool_decide (email v = String c e)
                                 then apply_patch
                                   (SetScore
                                      (number_of_correct_ans existing + sc.1)
                                      (interval_text
                    (num_add (Finite (intervalToMs (Store.time existing)))
                                          sc.2))) v
                                 else v) (users w))
                  \/ users w' = users w ++ [fresh_record (String c e) sc])).
Proof.
  unfold post_api_submit.
  destruct (req_email body) as [| | | | | [| c e]] eqn:Hemail; try by auto.
  destruct (req_answers body) as [| | | | | answers] eqn:Hanswers;
    try by auto.
  destruct (req_time body) as [| | | | | time_] eqn:Htime; try by auto.
  destruct w as [us ws qs fs cs]. cbn [users words questions].
  destruct (score qs answers time_) as [n t] eqn:Hsc.
  run_submission_eq fs us Hsc Hfound;
    (split; [reflexivity |]); (split; [reflexivity |]);
    first [ left; reflexivity
          | right; exists c, e, answers, time_; cbv zeta;
            rewrite ?Hsc; cbn [fst snd];
            repeat (split; [reflexivity |]);
            first [ right; reflexivity
                  | left; eexists; split; [exact Hfound | reflexivity] ] ].
Qed.


(** X8.  A submission that is not answered with status 200 has stored
    nothing: the three tables are as they were. *)
Theorem failed_submission_stores_nothing body w :
  (forall b, (post_api_submit body w).1 <> Status200 b) ->
  users (post_api_submit body w).2 = users w
  /\ words (post_api_submit body w).2 = words w
  /\ questions (post_api_submit body w).2 = questions w.
Proof.
  intros Hfailed.
  destruct (submit_outcomes body w) as (Hwords & Hquestions & Husers).
  split; [| by split].
  destruct Husers as [Hsame | (c & e & answers & time_ & _ & _ & _ & Hok & _)];
    [exact Hsame |].
  by destruct (Hfailed _ Hok).
Qed.

Lemma filter_other_emails_update e p (us : list User) :
  (forall u, email (apply_patch p u) = email u) ->
  filter (fun u => email u <> e)
         (map (fun v => if bool_decide (email v = e) then apply_patch p v
                        else v) us)
  = filter (fun u => email u <> e) us.
Proof.
  intros Hp. induction us as [| u us IH]; [reflexivity |].
  cbn [map]. rewrite !filter_cons, IH.
  case_bool_decide as Hu.
  - rewrite !decide_False; [done | by intros [] | rewrite Hp; by intros []].
  - by rewrite !decide_True.
Qed.

(** X9.  A submission leaves every record of another email as it is,
    changes the rank and the email of no record, removes no record and
    adds at most one; the words and the questions are never written. *)
Theorem submission_touches_one_email body w e :
  req_email body = Present e ->
  let w' := (post_api_submit body w).2 in
  filter (fun u => email u <> e) (users w')
  = filter (fun u => email u <> e) (users w)
  /\ map (fun u => (email u, rank u)) (take (length (users w)) (users w'))
     = map (fun u => (email u, rank u)) (users w)
  /\ (length (users w) <= length (users w') <= S (length (users w)))%nat
  /\ words w' = words w /\ questions w' = questions w.
Proof.
  intros Hemail w'. subst w'.
  destruct (submit_outcomes body w) as (Hwords & Hquestions & Husers).
  cut (filter (fun u => email u <> e) (users (post_api_submit body w).2)
       = filter (fun u => email u <> e) (users w)
       /\ map (fun u => (email u, rank u))
              (take (length (users w)) (users (post_api_submit body w).2))
          = map (fun u => (email u, rank u)) (users w)
       /\ (length (users w) <= length (users (post_api_submit body w).2)
           <= S (length (users w)))%nat); [tauto |].
  destruct Husers
    as [-> | (c & e' & answers & time_ & He & _ & _ & _ & Hwrite)].
  - rewrite firstn_all. repeat split; lia.
  - rewrite Hemail in He. injection He as ->.
    destruct Hwrite as [(existing & _ & ->) | ->].
    + rewrite length_map, firstn_all2 by (rewrite length_map; lia).
      split; [by apply filter_other_emails_update |].
      split; [| lia]. rewrite map_map. apply map_ext.
      intros u. by case_bool_decide.
    + rewrite filter_app, take_app_length, length_app. cbn [length].
      split; [| split; [reflexivity | lia]].
      rewrite filter_cons, decide_False, filter_nil, app_nil_r;
        [reflexivity | by intros []].
Qed.

Lemma sum_Qc_nonneg l : Forall (fun q => (0 <= q)%Qc) l -> (0 <= sum_Qc l)%Qc.
Proof.
  induction 1 as [| q l Hq _ IH]; [apply Qcle_refl |].
  cbn [sum_Qc foldr]. by apply Qcplus_nonneg_nonneg.
Qed.

Lemma score_time_nonneg qs answers (time_ : gmap string Qc) :
  own_timed answers time_ ->
  (forall k v, time_ !! k = Some v -> (0 <= v)%Qc) ->
  exists t, (score qs answers time_).2 = Finite t /\ (0 <= t)%Qc.
Proof.
  intros Hown Hpos. eexists. split.
  - exact (proj1 (total_over_own_entries qs answers time_ Hown)).
  - apply sum_Qc_nonneg.
    apply Forall_fmap, Forall_forall. intros k _. unfold elapsed. cbn.
    destruct (time_ !! k) as [v |] eqn:Hk;
      [by apply (Hpos k) | apply Qcle_refl].
Qed.

(** X10.  When the times submitted are not negative and no key of the
    answers is read from [Object.prototype], every time the handler
    stores is a clock text: a table whose times are all clock texts
    stays that way, whatever the store answers. *)
Theorem stored_times_stay_clock_texts body w :
  times_nonnegative body ->
  own_times body ->
  well_timed (users w) ->
  well_timed (users (post_api_submit body w).2).
Proof.
  intros Hforward Hown Hshaped.
  destruct (submit_outcomes body w) as (_ & _ & Husers).
  destruct Husers
    as [-> | (c & e & answers & time_ & _ & Hanswers & Htime & _ & Hwrite)];
    [exact Hshaped |].
  destruct (score_time_nonneg (questions w) answers time_
              (Hown answers time_ Hanswers Htime)
              (fun k v => Hforward time_ k v Htime)) as (t & Ht & Htotal).
  cbv zeta in Hwrite. unfold fresh_record in Hwrite.
  rewrite !Ht in Hwrite. cbn [interval_text num_add] in Hwrite.
  destruct Hwrite as [(existing & _ & ->) | ->].
  - unfold well_timed in *. rewrite Forall_forall in Hshaped.
    apply Forall_forall.
    intros u (v & <- & Hv%list_elem_of_In)%list_elem_of_In%in_map_iff.
    case_bool_decide; [| by apply Hshaped].
    eexists. split; [reflexivity |].
    apply intervalString_clock_shaped, Qcplus_nonneg_nonneg;
      [apply intervalToMs_nonneg_any | exact Htotal].
  - apply Forall_app. split; [exact Hshaped |].
    apply Forall_singleton. eexists. split; [reflexivity |].
    by apply intervalString_clock_shaped.
Qed.

(** Everything a validated submission does when the store answers its
    three calls. *)
Lemma submit_runs_full body c e answers time_ w :
  req_email body = Present (String c e) ->
  req_answers body = Present answers ->
  req_time body = Present time_ ->
  reliable 3 w ->
  let sc := score (questions w) answers time_ in
  let found := filter (fun u => email u = String c e) (users w) in
  exists w',
    post_api_submit body w
    = (Status200 (SubmitBody sc.1 (size answers) (interval_text sc.2)), w')
    /\ words w' = words w /\ questions w' = questions w
    /\ faults w' = drop 3 (faults w)
    /\ users w'
       = match found with
         | [existing] =>
             map (fun v => if bool_decide (email v = String c e)
                           then merged_record existing sc else v) (users w)
         | _ => users w ++ [fresh_record (String c e) sc]
         end
    /\ calls w'
       = calls w ++
         [ SelectAll QuestionsTable; SelectUserSingle (String c e);
           match found with
           | [existing] =>
               UpdateUsers
                 (SetScore (number_of_correct_ans existing + sc.1)
                    (interval_text
                    (num_add (Finite (intervalToMs (Store.time existing)))
                             sc.2)))
                 (EmailEq (String c e))
           | _ => InsertUser (fresh_record (String c e) sc)
           end ].
Proof.
  intros Hemail Hanswers Htime Hrel sc found. subst sc found.
  unfold post_api_submit. rewrite Hemail, Hanswers, Htime.
  destruct w as [us ws qs fs cs]. unfold reliable in Hrel. cbn [faults] in Hrel.
  cbn [questions users words calls faults].
  destruct (score qs answers time_) as [n t] eqn:Hsc. cbn [fst snd].
  run_submission_eq fs us Hsc Hfound; try discriminate Hrel;
    eexists; (split; [reflexivity |]);
    cbn [words questions faults users calls with_users logged];
    rewrite <- ?app_assoc; cbn [app drop];
    repeat (split; [reflexivity |]); try reflexivity.
  all: split; [| reflexivity].
  all: apply map_ext_in; intros v Hv; case_bool_decide as Hmail; [| done].
  all: assert (v = u) as ->; [| by destruct u; cbn in *; subst].
  all: assert (v ∈ filter (fun u => email u = String c e) us) as Hin
    by (apply list_elem_of_filter; split; [done | by apply list_elem_of_In]).
  all: rewrite Hfound in Hin; by apply list_elem_of_singleton in Hin.
Qed.


(** X11.  Against a store that answers, a validated submission makes
    exactly three calls, in this order: it reads the questions, looks
    the record up by email, and writes once, an update when exactly one
    record has the email and an insert otherwise. *)
Theorem submission_call_sequence body c e answers time_ w :
  req_email body = Present (String c e) ->
  req_answers body = Present answers ->
  req_time body = Present time_ ->
  reliable 3 w ->
  let sc := score (questions w) answers time_ in
  calls (post_api_submit body w).2
  = calls w ++
    [ SelectAll QuestionsTable; SelectUserSingle (String c e);
      match filter (fun u => email u = String c e) (users w) with
      | [existing] =>
          UpdateUsers
            (SetScore (number_of_correct_ans existing + sc.1)
               (interval_text
                  (num_add (Finite (intervalToMs (Store.time existing))) sc.2)))
            (EmailEq (String c e))
      | _ => InsertUser (fresh_record (String c e) sc)
      end ].
Proof.
  intros Hemail Hanswers Htime Hrel sc.
  destruct (submit_runs_full body c e answers time_ w
              Hemail Hanswers Htime Hrel)
    as (w' & Hrun & _ & _ & _ & _ & Hcalls).
  by rewrite Hrun.
Qed.

(** X12.  The error of the lookup is not inspected: when the lookup
    call fails, the handler takes the record for absent and issues an
    insert of a fresh record, whether or not the table has a record for
    the email. *)
Theorem failed_lookup_inserts body c e answers time_ w fs :
  req_email body = Present (String c e) ->
  req_answers body = Present answers ->
  req_time body = Present time_ ->
  faults w = false :: true :: fs ->
  calls (post_api_submit body w).2
  = calls w ++
    [ SelectAll QuestionsTable; SelectUserSingle (String c e);
      InsertUser (fresh_record (String c e)
                               (score (questions w) answers time_)) ].
Proof.
  intros Hemail Hanswers Htime Hfaults.
  unfold post_api_submit. rewrite Hemail, Hanswers, Htime.
  destruct w as [us ws qs fs0 cs]. cbn [faults] in Hfaults. subst fs0.
  cbn [questions calls].
  destruct (score qs answers time_) as [n t] eqn:Hsc.
  unfold try_catch, bind, await, select_questions, select_user_single,
    round_trip.
  cbn [faults questions users words logged checked ret throw fst snd].
  rewrite Hsc.
  cbn [faults questions users words logged checked ret throw data].
  unfold upsert, bind, await, insert_user, round_trip.
  destruct fs as [| [] fs];
    cbn [faults questions users words calls logged checked ret throw fst snd
         data with_users];
    by rewrite <- !app_assoc.
Qed.

Lemma reliable_split n m w :
  reliable (n + m) w ->
  reliable n w /\ forallb negb (take m (drop n (faults w))) = true.
Proof.
  unfold reliable. intros Hrel.
  rewrite <- take_take_drop, forallb_app in Hrel.
  by apply andb_prop in Hrel.
Qed.

(** X13.  Two submissions in a row for an email that has no record yet:
    the record then holds the sum of the two counts and, as its time,
    the whole seconds of the first attempt plus the milliseconds of the
    second, formatted; the fraction of a second of the first attempt is
    lost when its total is stored. *)
Theorem two_attempts_add_up body1 body2 c e answers1 time1 answers2 time2 w
    t1 :
  req_email body1 = Present (String c e) ->
  req_answers body1 = Present answers1 ->
  req_time body1 = Present time1 ->
  req_email body2 = Present (String c e) ->
  req_answers body2 = Present answers2 ->
  req_time body2 = Present time2 ->
  reliable 6 w ->
  (forall u, u ∈ users w -> email u <> String c e) ->
  let sc1 := score (questions w) answers1 time1 in
  let sc2 := score (questions w) answers2 time2 in
  sc1.2 = Finite t1 ->
  (0 <= t1)%Qc ->
  users (post_api_submit body2 (post_api_submit body1 w).2).2
  = users w ++
    [ {| email := String c e;
         number_of_correct_ans := sc1.1 + sc2.1;
         Store.time :=
           Some (interval_text
                   (num_add
                      (Finite (Qc_of_Z (floor (t1 / Qc_of_Z 1000)%Qc * 1000)))
                      sc2.2));
         rank := 0 |} ].
Proof.
  intros He1 Ha1 Ht1 He2 Ha2 Ht2 Hrel Hnone sc1 sc2 Hsc1 Hpos.
  pose proof (filter_no_email _ _ Hnone) as Hfilter.
  destruct (reliable_split 3 3 w Hrel) as [Hrel1 Hrel2].
  destruct (submit_runs_full body1 c e answers1 time1 w He1 Ha1 Ht1 Hrel1)
    as (w1 & Hrun1 & _ & Hq1 & Hf1 & Hu1 & _).
  rewrite Hfilter in Hu1. fold sc1 in Hu1.
  rewrite Hrun1. cbn [snd].
  assert (reliable 3 w1) as Hrel3 by (unfold reliable; by rewrite Hf1).
  destruct (submit_runs_full body2 c e answers2 time2 w1 He2 Ha2 Ht2 Hrel3)
    as (w2 & Hrun2 & _ & _ & _ & Hu2 & _).
  rewrite Hrun2. cbn [snd].
  rewrite Hq1 in Hu2. fold sc2 in Hu2.
  rewrite Hu1, filter_app, Hfilter, filter_cons, decide_True in Hu2
    by reflexivity.
  cbn [app filter] in Hu2. rewrite Hu2, map_app. f_equal.
  - rewrite <- (map_id (users w)) at 2. apply map_ext_in.
    intros u Hu%list_elem_of_In.
    by rewrite bool_decide_eq_false_2 by by apply Hnone.
  - cbn [map fresh_record email]. rewrite bool_decide_eq_true_2 by done.
    unfold merged_record, fresh_record.
    cbn [email number_of_correct_ans Store.time rank].
    rewrite Hsc1. cbn [interval_text].
    by rewrite parse_format_whole_seconds.
Qed.

(** X14.  A failed store call of a submission is surfaced.  When the
    select of the questions fails the answer is status 500 with the
    message of the store and no further call is made; when the write
    fails (the update of the record found, or the insert) the answer is
    the same status 500 and the users table is as it was. *)
Theorem failed_store_call_surfaced body c e answers time_ w fs :
  req_email body = Present (String c e) ->
  req_answers body = Present answers ->
  req_time body = Present time_ ->
  (faults w = true :: fs ->
   post_api_submit body w
   = (Status500 "record store unavailable",
      logged (SelectAll QuestionsTable) fs w))
  /\ (forall lookup_fails,
        faults w = false :: lookup_fails :: true :: fs ->
        (post_api_submit body w).1 = Status500 "record store unavailable"
        /\ users (post_api_submit body w).2 = users w
        /\ length (calls (post_api_submit body w).2)
           = (length (calls w) + 3)%nat
        /\ faults (post_api_submit body w).2 = fs).
Proof.
  intros Hemail Hanswers Htime.
  unfold post_api_submit. rewrite Hemail, Hanswers, Htime.
  destruct w as [us ws qs fs0 cs]. cbn [faults users calls].
  split.
  - intros ->. reflexivity.
  - intros b ->.
    destruct (score qs answers time_) as [n t] eqn:Hsc.
    unfold try_catch, bind, await, select_questions, select_user_single,
      round_trip;
    cbn [faults questions users words logged checked ret throw fst snd];
    rewrite ?Hsc;
    cbn [faults questions users words logged checked ret throw data].
    destruct b;
      try (destruct (filter _ us) as [| ? [| ? ?]]);
      unfold upsert, bind, await, update_users, insert_user, round_trip;
      cbn [faults questions users words calls logged checked ret throw
           fst snd data with_users selects];
      rewrite ?length_app; cbn [length]; repeat split; lia.
Qed.

End SubmitMore.

(** ** Reads: what they write, what they answer *)

Section ReadMore.
Import Duration Clock Store Server Spec Invariants.

(** X15.  The count of an attempt lies between zero and the number of
    answers submitted, the figure the response reports as
    [totalQuestions]; the size of the question set plays no part. *)
Theorem count_within_answers qs (answers : gmap string string)
    (time_ : gmap string Qc) :
  0 <= (score qs answers time_).1 <= Z.of_nat (size answers).
Proof.
  rewrite score_unfold. cbn [fst].
  pose proof (length_filter (fun e => answered_correctly qs e)
                (map_to_list answers)) as Hle.
  rewrite length_map_to_list in Hle. lia.
Qed.

(** X16.  A read in the Quiz phase makes one call, the select of the
    questions, and writes nothing; it answers with the questions table
    when the call goes through and with status 500 and the message of
    the store when it fails. *)
Theorem quiz_read_only leb now email_param w :
  phaseOf (getCurrentUTCHour now) = Quiz ->
  let response := (get_api_data leb now email_param w).1 in
  let w' := (get_api_data leb now email_param w).2 in
  users w' = users w /\ words w' = words w /\ questions w' = questions w
  /\ calls w' = calls w ++ [SelectAll QuestionsTable]
  /\ (reliable 1 w -> response = Status200 (QuestionsBody (questions w)))
  /\ (~ reliable 1 w -> response = Status500 "record store unavailable").
Proof.
  intros Hphase response w'. subst response w'.
  unfold get_api_data. rewrite Hphase.
  unfold try_catch, bind, await, select_questions, round_trip, reliable.
  destruct w as [us ws qs fs cs]. cbn [faults].
  destruct fs as [| [] fs];
    cbn [users words questions calls logged checked ret throw fst snd
         take forallb negb andb];
    do 4 (split; [reflexivity |]); split; intros Hrel;
    first [reflexivity | discriminate Hrel | exfalso; apply Hrel; reflexivity].
Qed.

Lemma only_ranks_refl w : only_ranks_differ w w.
Proof. by repeat split. Qed.

Lemma update_rank_only_ranks r f w :
  only_ranks_differ w (update_users (SetRank r) f w).2.
Proof.
  unfold update_users, round_trip, only_ranks_differ.
  destruct (faults w) as [| [] fs];
    cbn [snd users words questions logged with_users];
    repeat split; try reflexivity.
  all: rewrite map_map; apply map_ext; intros u; by destruct (selects f u).
Qed.

Lemma only_ranks_trans w1 w2 w3 :
  only_ranks_differ w1 w2 -> only_ranks_differ w2 w3 ->
  only_ranks_differ w1 w3.
Proof.
  intros (Hu & Hw & Hq) (Hu' & Hw' & Hq'). repeat split; congruence.
Qed.

Lemma rank_updates_only_ranks (l : list User) w :
  only_ranks_differ w
    (for_of l (fun user =>
       bind (await (update_users (SetRank (rank user)) (EmailEq (email user))))
            (fun _ => ret tt)) w).2.
Proof.
  revert w. induction l as [| u l IH]; intros w; [apply only_ranks_refl |].
  cbn [for_of]. unfold bind at 1. unfold bind at 1, await.
  pose proof (update_rank_only_ranks (rank u) (EmailEq (email u)) w) as Hstep.
  destruct (update_users _ _ w) as [r w1]. cbn [ret snd] in *.
  eapply only_ranks_trans; [exact Hstep | apply IH].
Qed.

Lemma read_only_ranks leb now email_param w :
  only_ranks_differ w (get_api_data leb now email_param w).2.
Proof.
  unfold get_api_data.
  destruct (phaseOf (getCurrentUTCHour now)).
  - unfold try_catch, bind at 1. unfold await at 1.
    pose proof (update_rank_only_ranks 0 (EmailNeq "") w) as Hreset.
    destruct (update_users _ _ w) as [r w1]. cbn [snd] in Hreset.
    eapply only_ranks_trans; [exact Hreset |].
    unfold bind, await, select_words, round_trip.
    destruct (faults w1) as [| [] fs]; by repeat split.
  - unfold try_catch, bind, await, select_questions, round_trip.
    destruct (faults w) as [| [] fs]; by repeat split.
  - unfold try_catch, bind at 1. unfold await at 1.
    unfold select_users_ordered, round_trip.
    destruct (faults w) as [| [] fs]; [| by repeat split |];
      unfold bind at 1; cbn [checked ret]; unfold bind at 1;
      match goal with
      | |- context [for_of ?l ?body ?w0] =>
          pose proof (rank_updates_only_ranks l w0) as Hloop;
          destruct (rank_updates_return l w0) as [w1 Hrun]
      end; unfold bind in Hloop, Hrun |- *; rewrite Hrun in Hloop |- *;
      exact Hloop.
Qed.

(** X17.  In every phase, and whatever the store answers, a read changes
    nothing but rank fields: it adds and removes no record, leaves
    email, count and time of every record alone and never writes the
    words or the questions. *)
Theorem read_changes_only_ranks leb now email_param w :
  let w' := (get_api_data leb now email_param w).2 in
  map unranked (users w') = map unranked (users w)
  /\ words w' = words w /\ questions w' = questions w.
Proof. exact (read_only_ranks leb now email_param w). Qed.

(** X18.  A failed select is surfaced.  In the Ranking phase the answer
    is status 500 with the message of the store, and no rank update is
    issued; in the Learning phase a failed select of the words gives the
    same answer, after the reset has been issued. *)
Theorem failed_select_surfaced leb now email_param w fs :
  (phaseOf (getCurrentUTCHour now) = Ranking ->
   faults w = true :: fs ->
   get_api_data leb now email_param w
   = (Status500 "record store unavailable", logged SelectUsersOrdered fs w))
  /\ (phaseOf (getCurrentUTCHour now) = Learning ->
      tail (faults w) = true :: fs ->
      (get_api_data leb now email_param w).1
      = Status500 "record store unavailable"
      /\ calls (get_api_data leb now email_param w).2
         = calls w ++ [UpdateUsers (SetRank 0) (EmailNeq "");
                       SelectAll WordsTable]).
Proof.
  split; intros Hphase Hfaults; unfold get_api_data; rewrite Hphase;
    destruct w as [us ws qs fs0 cs]; cbn [faults tail] in Hfaults.
  - subst fs0. reflexivity.
  - destruct fs0 as [| b fs0]; [discriminate Hfaults |].
    cbn [tail] in Hfaults. subst fs0.
    unfold try_catch, bind, await, update_users, select_words, round_trip.
    destruct b;
      cbn [faults users words questions calls logged with_users checked
           ret throw fst snd];
      rewrite <- app_assoc; by split.
Qed.

End ReadMore.

Section RankingMore.
Import Duration Clock Store Server Spec Invariants.

Lemma update_users_reliable p f w n :
  reliable (S n) w ->
  exists w1,
    update_users p f w = (Data tt, w1)
    /\ users w1
       = map (fun u => if selects f u then apply_patch p u else u) (users w)
    /\ reliable n w1.
Proof.
  unfold reliable, update_users, round_trip.
  destruct (faults w) as [| [] fs]; intros Hrel; try discriminate Hrel;
    eexists; (split; [reflexivity |]); (split; [reflexivity |]);
    cbn [with_users logged faults]; [by rewrite take_nil | exact Hrel].
Qed.

Lemma rank_updates_reliable (l : list User) w :
  reliable (length l) w ->
  exists w',
    for_of l (fun user =>
      bind (await (update_users (SetRank (rank user)) (EmailEq (email user))))
           (fun _ => ret tt)) w
    = (Returned tt, w')
    /\ users w'
       = foldl (fun us v => map (fun u => rank_written u v) us) (users w) l.
Proof.
  revert w. induction l as [| v l IH]; intros w Hrel; [by eexists |].
  cbn [for_of foldl length] in *. unfold bind at 1. unfold bind at 1, await.
  destruct (update_users_reliable (SetRank (rank v)) (EmailEq (email v))
              w (length l) Hrel) as (w1 & Hupd & Hus & Hrel1).
  rewrite Hupd. cbn [ret].
  destruct (IH w1 Hrel1) as (w' & Hrun & Husers).
  exists w'. split; [exact Hrun |]. by rewrite Husers, Hus.
Qed.

Lemma rank_written_pointwise (l us : list User) :
  foldl (fun us v => map (fun u => rank_written u v) us) us l
  = map (fun u => foldl rank_written u l) us.
Proof.
  revert us. induction l as [| v l IH]; intros us; cbn [foldl].
  - by rewrite map_id.
  - by rewrite IH, map_map.
Qed.

Lemma rank_written_unranked u v : unranked (rank_written u v) = unranked u.
Proof. unfold rank_written. by destruct (selects _ u). Qed.

Lemma rank_written_all_unranked u l :
  unranked (foldl rank_written u l) = unranked u.
Proof.
  revert u. induction l as [| v l IH]; intros u; [done |].
  cbn [foldl]. by rewrite IH, rank_written_unranked.
Qed.

Lemma unranked_email u v : unranked u = unranked v -> email u = email v.
Proof. intros Huv. by apply (f_equal email) in Huv. Qed.

Lemma with_rank_of_unranked u v :
  unranked u = unranked v -> with_rank (rank v) u = v.
Proof.
  destruct u, v. unfold unranked, with_rank. cbn. intros [= -> -> ->].
  reflexivity.
Qed.

Lemma rank_written_absent u l :
  (forall v, v ∈ l -> email v <> email u) -> foldl rank_written u l = u.
Proof.
  revert u. induction l as [| x l IH]; intros u Hnone; [done |].
  cbn [foldl]. unfold rank_written at 2. cbn [selects].
  rewrite bool_decide_eq_false_2
    by (intros Heq; by apply (Hnone x); [left |]).
  apply IH. intros v Hv. apply Hnone. by right.
Qed.

Lemma rank_written_found u l v :
  NoDup (email <$> l) -> v ∈ l -> email v = email u ->
  foldl rank_written u l = with_rank (rank v) u.
Proof.
  revert u. induction l as [| x l IH]; intros u Hnd Hin Hmail.
  - by apply elem_of_nil in Hin.
  - cbn [fmap list_fmap] in Hnd. apply NoDup_cons in Hnd as [Hx Hnd].
    cbn [foldl]. apply elem_of_cons in Hin as [-> | Hin].
    + unfold rank_written at 2. cbn [selects].
      rewrite bool_decide_eq_true_2 by done.
      apply rank_written_absent. intros v Hv Heq. apply Hx.
      change (email v = email u) in Heq. rewrite Hmail, <- Heq.
      by apply list_elem_of_fmap_2.
    + unfold rank_written at 2. cbn [selects].
      rewrite bool_decide_eq_false_2; [by apply IH |].
      intros Heq. apply Hx. rewrite <- Heq, <- Hmail.
      by apply list_elem_of_fmap_2.
Qed.

Lemma emails_of_unranked (l : list User) :
  email <$> (unranked <$> l) = email <$> l.
Proof. rewrite <- list_fmap_compose. by apply list_fmap_ext. Qed.

Lemma ranks_stored (us l : list User) :
  unique_emails us ->
  unranked <$> l ≡ₚ unranked <$> us ->
  map (fun u => foldl rank_written u l) us ≡ₚ l.
Proof.
  intros Huniq Hperm.
  assert (NoDup (email <$> l)) as Hnd.
  { rewrite <- emails_of_unranked, Hperm, emails_of_unranked. exact Huniq. }
  assert (forall u v, v ∈ l -> unranked u = unranked v ->
                      foldl rank_written u l = v) as Hhit.
  { intros u v Hv Huv.
    rewrite (rank_written_found u l v Hnd Hv)
      by (symmetry; by apply unranked_email).
    by apply with_rank_of_unranked. }
  apply NoDup_Permutation.
  - apply (NoDup_fmap_1 email).
    rewrite <- list_fmap_compose.
    erewrite list_fmap_ext; [exact Huniq |].
    intros i u _. cbn. apply unranked_email, rank_written_all_unranked.
  - by apply (NoDup_fmap_1 email).
  - intros x. split.
    + intros (u & <- & Hu%list_elem_of_In)%list_elem_of_In%in_map_iff.
      assert (unranked u ∈ unranked <$> l) as Hin
        by (rewrite Hperm; by apply list_elem_of_fmap_2).
      apply list_elem_of_fmap in Hin as (v & Huv & Hv).
      by rewrite (Hhit u v Hv Huv).
    + intros Hx.
      assert (unranked x ∈ unranked <$> us) as Hin
        by (rewrite <- Hperm; by apply list_elem_of_fmap_2).
      apply list_elem_of_fmap in Hin as (u & Hxu & Hu).
      apply list_elem_of_In, in_map_iff. exists u.
      split; [by apply Hhit | by apply list_elem_of_In].
Qed.

Lemma select_users_reliable leb w n :
  reliable (S n) w ->
  exists w0,
    select_users_ordered leb w = (Data (order_users leb (users w)), w0)
    /\ users w0 = users w /\ reliable n w0.
Proof.
  unfold reliable, select_users_ordered, round_trip.
  destruct (faults w) as [| [] fs]; intros Hrel; try discriminate Hrel;
    eexists; (split; [reflexivity |]); (split; [reflexivity |]);
    cbn [logged faults]; [by rewrite take_nil | exact Hrel].
Qed.

(** X19.  In the Ranking phase, when the store answers every call and
    no two records share an email, the ranks of the leaderboard are the
    ranks stored afterwards: the users table then holds exactly the
    records of the leaderboard returned. *)
Theorem ranking_persisted leb now email_param w :
  phaseOf (getCurrentUTCHour now) = Ranking ->
  reliable (S (length (users w))) w ->
  unique_emails (users w) ->
  exists user leaderboard w',
    get_api_data leb now email_param w
    = (Status200 (RankingsBody user leaderboard), w')
    /\ users w' ≡ₚ leaderboard.
Proof.
  intros Hphase Hrel Huniq.
  destruct (select_users_reliable leb w _ Hrel) as (w0 & Hsel & Hw0 & Hrel0).
  set (l := imap (fun index user => with_rank (Z.of_nat index + 1) user)
                 (order_users leb (users w))).
  assert (length l = length (users w)) as Hlen.
  { unfold l. by rewrite length_imap, order_users_Permutation. }
  assert (unranked <$> l ≡ₚ unranked <$> users w) as Hperm.
  { unfold l. rewrite (unranked_ranked (fun i => Z.of_nat i + 1)).
    by rewrite order_users_Permutation. }
  rewrite <- Hlen in Hrel0.
  destruct (rank_updates_reliable l w0 Hrel0) as (w1 & Hrun & Husers).
  exists (find (fun u => bool_decide (email u = email_param)) l), l, w1.
  split.
  - unfold get_api_data. rewrite Hphase.
    unfold try_catch, bind at 1. unfold await at 1. rewrite Hsel.
    unfold bind at 1. cbn [checked ret]. cbv zeta. fold l.
    unfold bind in Hrun |- *. rewrite Hrun. reflexivity.
  - rewrite Husers, rank_written_pointwise, Hw0. by apply ranks_stored.
Qed.

End RankingMore.

Section LeaderboardMore.
Import Duration Clock Store Server Spec Invariants.

Lemma precedes_unranked leb u v :
  precedes leb (unranked u) (unranked v) = precedes leb u v.
Proof. reflexivity. Qed.

Lemma place_unranked leb u l :
  place leb (unranked u) (unranked <$> l) = unranked <$> place leb u l.
Proof.
  induction l as [| v l IH]; [reflexivity |].
  cbn [place fmap list_fmap]. rewrite precedes_unranked.
  destruct (precedes leb u v); [reflexivity |].
  cbn [fmap list_fmap]. f_equal. exact IH.
Qed.

Lemma order_users_unranked leb us :
  order_users leb (unranked <$> us) = unranked <$> order_users leb us.
Proof.
  unfold order_users. induction us as [| u us IH]; [reflexivity |].
  cbn [fmap list_fmap foldr]. rewrite IH. apply place_unranked.
Qed.

Lemma ranked_unranked (f : nat -> Z) l :
  imap (fun i u => with_rank (f i) u) (unranked <$> l)
  = imap (fun i u => with_rank (f i) u) l.
Proof.
  revert f. induction l as [| u l IH]; intros f; [reflexivity |].
  cbn [fmap list_fmap]. rewrite !imap_cons. f_equal. apply (IH (f ∘ S)).
Qed.

Lemma leaderboard_of_unranked leb us1 us2 :
  unranked <$> us1 = unranked <$> us2 ->
  imap (fun index user => with_rank (Z.of_nat index + 1) user)
       (order_users leb us1)
  = imap (fun index user => with_rank (Z.of_nat index + 1) user)
         (order_users leb us2).
Proof.
  intros Hsame.
  rewrite <- (ranked_unranked _ (order_users leb us1)).
  rewrite <- (ranked_unranked _ (order_users leb us2)).
  by rewrite <- !order_users_unranked, Hsame.
Qed.

(** X20.  The ranking answered does not depend on the ranks stored
    before: two users tables that agree on email, count and time of
    every record, in the same order, give the same answer in the Ranking
    phase. *)
Theorem leaderboard_ignores_stored_ranks leb now email_param w1 w2 :
  phaseOf (getCurrentUTCHour now) = Ranking ->
  reliable 1 w1 -> reliable 1 w2 ->
  map unranked (users w1) = map unranked (users w2) ->
  (get_api_data leb now email_param w1).1
  = (get_api_data leb now email_param w2).1.
Proof.
  intros Hphase Hrel1 Hrel2 Hsame.
  destruct (ranking_runs leb now email_param w1 Hphase Hrel1) as [w1' Hrun1].
  destruct (ranking_runs leb now email_param w2 Hphase Hrel2) as [w2' Hrun2].
  rewrite Hrun1, Hrun2. cbn [fst].
  by rewrite (leaderboard_of_unranked leb _ _ Hsame).
Qed.

End LeaderboardMore.

(** ** The properties at the sample data *)

Section Samples.
Import Duration Clock Store Server Spec Examples Cases.

Lemma duration_leb_linear : linear duration_leb.
Proof.
  unfold duration_leb. split.
  - intros a b. generalize (intervalToMs a) (intervalToMs b). intros x y.
    destruct (Qclt_le_dec y x) as [Hlt | Hle].
    + right. apply bool_decide_eq_true_2, Qclt_le_weak. exact Hlt.
    + left. apply bool_decide_eq_true_2. exact Hle.
  - intros a b c.
    generalize (intervalToMs a) (intervalToMs b) (intervalToMs c).
    intros x y z Hab Hbc.
    apply bool_decide_eq_true in Hab. apply bool_decide_eq_true in Hbc.
    apply bool_decide_eq_true_2. exact (Qcle_trans _ _ _ Hab Hbc).
Qed.

(** The two submissions of the design document: a first, correct answer
    creates the record; a second, wrong answer for the same email leaves
    the count at 1 and brings the time to eight seconds. *)
Lemma merge_policy_sample :
  users (post_api_submit cat_submission (world_of [] [])).2
  = [ {| email := "ana@example.org"; number_of_correct_ans := 1;
         time := Some "00:00:05"; rank := 0 |} ]
  /\ users (post_api_submit dog_submission (world_of [ana] [])).2
     = [ {| email := "ana@example.org"; number_of_correct_ans := 1;
            time := Some "00:00:08"; rank := 0 |} ].
Proof.
  split.
  - destruct (merge_policy cat_submission "a" "na@example.org"
                ({[ "cat" := "gato" ]}) ({[ "cat" := Qc_of_Z 5000 ]})
                (world_of [] []) eq_refl eq_refl eq_refl eq_refl
                NoDup_nil_2)
      as [_ Hnew].
    etrans; [apply Hnew; intros u Hu; inversion Hu |].
    vm_compute. reflexivity.
  - destruct (merge_policy dog_submission "a" "na@example.org"
                ({[ "dog" := "perro" ]}) ({[ "dog" := Qc_of_Z 3000 ]})
                (world_of [ana] []) eq_refl eq_refl eq_refl eq_refl
                (NoDup_singleton _))
      as [Hexisting _].
    destruct (Hexisting ana ltac:(left) eq_refl) as [_ Hmap].
    etrans; [exact Hmap |]. vm_compute. reflexivity.
Defined.

Lemma ranking_leaderboard_witness :
  exists user leaderboard w',
    get_api_data duration_leb evening "ana@example.org" (world_of [ana; ben] [])
    = (Status200 (RankingsBody user leaderboard), w')
    /\ unranked <$> leaderboard ≡ₚ unranked <$> [ana; ben]
    /\ StronglySorted (ranks_before duration_leb) leaderboard
    /\ (forall i u, leaderboard !! i = Some u -> rank u = Z.of_nat i + 1)
    /\ (forall u, user = Some u ->
          u ∈ leaderboard /\ email u = "ana@example.org")
    /\ (user = None
        <-> forall u, u ∈ leaderboard -> email u <> "ana@example.org").
Proof.
  exact (ranking_leaderboard duration_leb evening "ana@example.org"
           (world_of [ana; ben] []) duration_leb_linear eq_refl eq_refl).
Defined.

(** C1.  A submission for the stored email of [ana] whose lookup fails
    at the store is answered with status 200 and inserts a second record
    for the email; the stored record is not merged.  From then on the
    lookup finds two rows, so a further submission, with the store
    answering every call, inserts a third record. *)
Theorem failed_lookup_duplicates_record :
  post_api_submit dog_submission (world_of [ana] [false; true])
  = (Status200 (SubmitBody 0 1 "00:00:03"),
     {| users := [ ana;
                   {| email := "ana@example.org"; number_of_correct_ans := 0;
                      time := Some "00:00:03"; rank := 0 |} ];
        words := lesson; questions := quiz; faults := [];
        calls := [ SelectAll QuestionsTable;
                   SelectUserSingle "ana@example.org";
                   InsertUser {| email := "ana@example.org";
                                 number_of_correct_ans := 0;
                                 time := Some "00:00:03"; rank := 0 |} ] |})
  /\ users (post_api_submit cat_submission
              (post_api_submit dog_submission
                 (world_of [ana] [false; true])).2).2
     = [ ana;
         {| email := "ana@example.org"; number_of_correct_ans := 0;
            time := Some "00:00:03"; rank := 0 |};
         {| email := "ana@example.org"; number_of_correct_ans := 1;
            time := Some "00:00:05"; rank := 0 |} ].
Proof. split; vm_compute; reflexivity. Qed.

(** C3.  An answer under the key [constructor] with no time entry of its
    own: [time[word]] reads the property inherited from
    [Object.prototype], the total becomes [NaN] where the sum over the
    entries is zero, and the text [NaN:NaN:NaN] is answered and
    stored. *)
Theorem inherited_property_read_as_time :
  sum_Qc (elapsed ∅ <$> keys {[ "constructor" := "x" ]}) = 0%Qc
  /\ (score quiz {[ "constructor" := "x" ]} ∅).2 = NaN
  /\ post_api_submit constructor_submission (world_of [] [])
     = (Status200 (SubmitBody 0 1 "NaN:NaN:NaN"),
        {| users := [ {| email := "ana@example.org";
                         number_of_correct_ans := 0;
                         time := Some "NaN:NaN:NaN"; rank := 0 |} ];
           words := lesson; questions := quiz; faults := [];
           calls := [ SelectAll QuestionsTable;
                      SelectUserSingle "ana@example.org";
                      InsertUser {| email := "ana@example.org";
                                    number_of_correct_ans := 0;
                                    time := Some "NaN:NaN:NaN";
                                    rank := 0 |} ] |}).
Proof. repeat split; vm_compute; reflexivity. Qed.

Lemma falsy_fields_rejected_witness :
  (post_api_submit zero_time_submission (world_of [ana] [true])
   = (Status400 missing_fields, world_of [ana] [true])
   /\ calls (post_api_submit zero_time_submission
               (world_of [ana] [true])).2 = []
   /\ users (post_api_submit zero_time_submission
               (world_of [ana] [true])).2 = [ana])
  /\ post_api_submit no_time_submission (world_of [ana] [true])
     = (Status400 missing_fields, world_of [ana] [true]).
Proof.
  split.
  - apply (falsy_fields_rejected zero_time_submission
             (world_of [ana] [true])).
    right. right. right. exact I.
  - apply (falsy_fields_rejected no_time_submission (world_of [ana] [true])).
    right. right. right. exact I.
Defined.

(** Present but empty mappings pass the validation of line 129: the
    questions are read, the record is looked up and a record is
    inserted. *)
Lemma empty_mappings_accepted :
  missing_or_empty empty_submission
  /\ post_api_submit empty_submission (world_of [] [])
     = (Status200 (SubmitBody 0 0 "00:00:00"),
        {| users := [ {| email := "ana@example.org";
                         number_of_correct_ans := 0;
                         time := Some "00:00:00"; rank := 0 |} ];
           words := lesson; questions := quiz; faults := [];
           calls := [ SelectAll QuestionsTable;
                      SelectUserSingle "ana@example.org";
                      InsertUser {| email := "ana@example.org";
                                    number_of_correct_ans := 0;
                                    time := Some "00:00:00"; rank := 0 |} ] |}).
Proof.
  split.
  - right. right. right. left. reflexivity.
  - vm_compute. reflexivity.
Qed.

(** C5.  At nine in the evening the ordered select succeeds and the
    first rank update fails.  The failure is not surfaced: the handler
    goes on to the next update and answers 200 with the full leaderboard,
    and the stored rank of [ben] is still 7. *)
Theorem rank_update_failure_not_surfaced :
  get_api_data duration_leb evening "ana@example.org"
               (world_of [ana; ben] [false; true])
  = (Status200
       (RankingsBody
          (Some (with_rank 2 ana)) [with_rank 1 ben; with_rank 2 ana]),
     {| users := [with_rank 2 ana; ben];
        words := lesson; questions := quiz; faults := [];
        calls := [ SelectUsersOrdered;
                   UpdateUsers (SetRank 1) (EmailEq "ben@example.org");
                   UpdateUsers (SetRank 2) (EmailEq "ana@example.org") ] |}).
Proof. vm_compute. reflexivity. Qed.

(** C9.  In the morning the reset of the ranks fails at the store.  The
    failure is not noticed: the words are served with status 200 and
    the rank of [ben] is still 7, not 0. *)
Theorem reset_failure_not_surfaced :
  get_api_data duration_leb morning "ana@example.org"
               (world_of [ana; ben] [true])
  = (Status200 (WordsBody lesson),
     {| users := [ana; ben]; words := lesson; questions := quiz;
        faults := [];
        calls := [ UpdateUsers (SetRank 0) (EmailNeq "");
                   SelectAll WordsTable ] |}).
Proof. vm_compute. reflexivity. Qed.

(** An email without a record gets no user and the whole leaderboard. *)
Lemma absent_user_sample :
  exists leaderboard w',
    get_api_data duration_leb evening "zoe@example.org" (world_of [ana; ben] [])
    = (Status200 (RankingsBody None leaderboard), w')
    /\ leaderboard <> [].
Proof. eexists _, _. split; [vm_compute; reflexivity | discriminate]. Qed.

(** The boundary hours of the design document, and the same boundaries
    read off the clock. *)
Lemma phase_samples :
  phaseOf (Q2Qc (19999 # 1000)) = Learning
  /\ phaseOf (Q2Qc (204999 # 10000)) = Quiz
  /\ phaseOf (Q2Qc (23999 # 1000)) = Ranking
  /\ phaseOf 0%Qc = Learning
  /\ phaseOf (getCurrentUTCHour {| getUTCHours := 19; getUTCMinutes := 59 |})
     = Learning
  /\ phaseOf (getCurrentUTCHour {| getUTCHours := 20; getUTCMinutes := 0 |})
     = Quiz
  /\ phaseOf (getCurrentUTCHour {| getUTCHours := 20; getUTCMinutes := 29 |})
     = Quiz
  /\ phaseOf (getCurrentUTCHour {| getUTCHours := 20; getUTCMinutes := 30 |})
     = Ranking.
Proof. repeat split; reflexivity. Qed.

Lemma parse_format_floor_witness :
  intervalToMs (Some (intervalString (Qc_of_Z 8999))) = Qc_of_Z 8000.
Proof. exact (parse_format_floor 8999 ltac:(lia)). Defined.

Lemma phase_windows_witness :
  phaseOf (Qc_of_Z 20) = Quiz
  <-> (Qc_of_Z 20 <= Qc_of_Z 20 /\ Qc_of_Z 20 < half_past_twenty)%Qc.
Proof.
  refine (proj1 (proj2 (phase_windows (Qc_of_Z 20) _ _))).
  - vm_compute. discriminate.
  - reflexivity.
Defined.

Lemma correct_count_witness :
  exists counted,
    (("cat", "gato") ∈ counted
     <-> ({[ "cat" := "gato" ]} : gmap string string) !! "cat" = Some "gato"
         /\ exists q, first_with_word quiz "cat" q /\ correct q = "gato")
    /\ (score quiz {[ "cat" := "gato" ]} {[ "cat" := Qc_of_Z 5000 ]}).1
       = Z.of_nat (length counted).
Proof.
  destruct (correct_count cat_submission "a" "na@example.org"
              ({[ "cat" := "gato" ]}) ({[ "cat" := Qc_of_Z 5000 ]})
              (world_of [] []) eq_refl eq_refl eq_refl eq_refl)
    as (counted & Hin & _ & Hn & _).
  exists counted. split; [exact (Hin "cat" "gato") | exact Hn].
Defined.

(** With the word [cat] twice among the questions, the answer [chat] is
    the accepted answer of a question with that word, and is not
    counted: the first question with the word decides. *)
Lemma first_question_decides :
  (exists q, q ∈ twice_cat /\ word q = "cat" /\ correct q = "chat")
  /\ chat_answer !! "cat" = Some "chat"
  /\ (score twice_cat chat_answer ∅).1 = 0.
Proof.
  split; [| split; vm_compute; reflexivity].
  exists {| word := "cat"; correct := "chat" |}.
  split; [| split; reflexivity]. right. left.
Qed.

Lemma learning_resets_ranks_sample :
  Forall (fun u => rank u = 0)
         (users (get_api_data duration_leb morning "ana@example.org"
                   (world_of [ana; ben] [])).2).
Proof.
  apply Forall_forall.
  refine (proj1 (proj2 (learning_resets_ranks duration_leb morning
                          "ana@example.org" (world_of [ana; ben] [])
                          eq_refl)) eq_refl _).
  intros u Hu Hempty.
  apply elem_of_cons in Hu as [-> | Hu]; [discriminate Hempty |].
  apply elem_of_cons in Hu as [-> | Hu]; [discriminate Hempty |].
  inversion Hu.
Defined.


End Samples.

(** ** The further properties at the sample data *)

Section FurtherSamples.
Import Duration Clock Store Server Spec Invariants Examples Cases.

Lemma five_and_a_half_nonneg : (0 <= five_and_a_half)%Qc.
Proof. vm_compute. discriminate. Qed.

Lemma colon_free_text_is_zero_witness :
  intervalToMs (Some "3 days") = 0%Qc /\ intervalToMs None = 0%Qc.
Proof. exact (colon_free_text_is_zero "3 days" eq_refl). Defined.

Lemma leading_text_skipped_witness :
  intervalToMs (Some ("about" +:+ String " " "01:02:03"))
  = intervalToMs (Some "01:02:03").
Proof.
  exact (leading_text_skipped "about" " " "01:02:03" eq_refl eq_refl eq_refl).
Defined.

Lemma format_drops_fraction_witness :
  intervalToMs (Some (intervalString five_and_a_half))
  = Qc_of_Z (floor (five_and_a_half / Qc_of_Z 1000)%Qc * 1000)
  /\ (intervalToMs (Some (intervalString five_and_a_half))
      <= five_and_a_half)%Qc.
Proof. exact (format_drops_fraction five_and_a_half five_and_a_half_nonneg). Defined.

Lemma format_parse_format_witness :
  intervalString (intervalToMs (Some (intervalString five_and_a_half)))
  = intervalString five_and_a_half.
Proof. exact (format_parse_format five_and_a_half five_and_a_half_nonneg). Defined.

Lemma format_is_clock_text_witness :
  exists hh mm ss,
    intervalString five_and_a_half = clock_text hh mm ss None
    /\ numeral hh /\ numeral mm /\ numeral ss
    /\ (2 <= String.length hh)%nat
    /\ String.length mm = 2%nat /\ String.length ss = 2%nat
    /\ parse_digits 0 mm < 60 /\ parse_digits 0 ss < 60
    /\ parse_digits 0 hh * 3600 + parse_digits 0 mm * 60 + parse_digits 0 ss
       = floor (five_and_a_half / Qc_of_Z 1000)%Qc.
Proof. exact (format_is_clock_text five_and_a_half five_and_a_half_nonneg). Defined.

Lemma phase_by_the_clock_witness :
  (phaseOf (getCurrentUTCHour quiz_time) = Learning
   <-> getUTCHours quiz_time < 20)
  /\ (phaseOf (getCurrentUTCHour quiz_time) = Quiz
      <-> getUTCHours quiz_time = 20 /\ getUTCMinutes quiz_time < 30)
  /\ (phaseOf (getCurrentUTCHour quiz_time) = Ranking
      <-> 20 < getUTCHours quiz_time
          \/ (getUTCHours quiz_time = 20 /\ 30 <= getUTCMinutes quiz_time)).
Proof.
  apply (phase_by_the_clock quiz_time);
    unfold quiz_time; cbn [getUTCHours getUTCMinutes]; lia.
Defined.

Lemma quiz_read_only_witness :
  users (get_api_data duration_leb quiz_time "ana@example.org"
           (world_of [ana] [])).2 = [ana]
  /\ calls (get_api_data duration_leb quiz_time "ana@example.org"
              (world_of [ana] [])).2 = [SelectAll QuestionsTable]
  /\ (get_api_data duration_leb quiz_time "ana@example.org"
        (world_of [ana] [])).1 = Status200 (QuestionsBody quiz).
Proof.
  destruct (quiz_read_only duration_leb quiz_time "ana@example.org"
              (world_of [ana] []) eq_refl)
    as (Husers & _ & _ & Hcalls & Hok & _).
  split; [exact Husers |]. split; [exact Hcalls |].
  exact (Hok eq_refl).
Defined.

Lemma ranking_persisted_witness :
  exists user leaderboard w',
    get_api_data duration_leb evening "ana@example.org"
      (world_of [ana; ben] [])
    = (Status200 (RankingsBody user leaderboard), w')
    /\ users w' ≡ₚ leaderboard.
Proof.
  apply (ranking_persisted duration_leb evening "ana@example.org"
           (world_of [ana; ben] [])); [reflexivity | reflexivity |].
  apply (bool_decide_unpack _). vm_compute. reflexivity.
Defined.

Lemma failed_select_surfaced_witness :
  get_api_data duration_leb evening "ana@example.org"
    (world_of [ana; ben] [true])
  = (Status500 "record store unavailable",
     logged SelectUsersOrdered [] (world_of [ana; ben] [true]))
  /\ (get_api_data duration_leb morning "ana@example.org"
        (world_of [ana] [false; true])).1
     = Status500 "record store unavailable".
Proof.
  split.
  - exact (proj1 (failed_select_surfaced duration_leb evening
                    "ana@example.org" (world_of [ana; ben] [true]) [])
                 eq_refl eq_refl).
  - exact (proj1 (proj2 (failed_select_surfaced duration_leb morning
                           "ana@example.org" (world_of [ana] [false; true])
                           [])
                        eq_refl eq_refl)).
Defined.

Lemma submission_touches_one_email_witness :
  filter (fun u => email u <> "ana@example.org")
    (users (post_api_submit cat_submission (world_of [ana; ben] [])).2)
  = filter (fun u => email u <> "ana@example.org") [ana; ben]
  /\ map (fun u => (email u, rank u))
       (take 2 (users (post_api_submit cat_submission
                         (world_of [ana; ben] [])).2))
     = map (fun u => (email u, rank u)) [ana; ben].
Proof.
  destruct (submission_touches_one_email cat_submission
              (world_of [ana; ben] []) "ana@example.org" eq_refl)
    as (Hothers & Hranks & _).
  split; [exact Hothers | exact Hranks].
Defined.

Lemma failed_submission_stores_nothing_witness :
  users (post_api_submit cat_submission
           (world_of [ana] [false; false; true])).2 = [ana]
  /\ words (post_api_submit cat_submission
              (world_of [ana] [false; false; true])).2 = lesson
  /\ questions (post_api_submit cat_submission
                  (world_of [ana] [false; false; true])).2 = quiz.
Proof.
  apply (failed_submission_stores_nothing cat_submission
           (world_of [ana] [false; false; true])).
  intros b Hb. vm_compute in Hb. discriminate Hb.
Defined.

Lemma cat_submission_times : times_nonnegative cat_submission.
Proof.
  intros time_ k v Htime Hk. injection Htime as <-.
  apply lookup_singleton_Some in Hk as [_ <-]. vm_compute. discriminate.
Qed.

Lemma cat_submission_own : own_times cat_submission.
Proof.
  intros answers time_ Hanswers Htime k Hk Hnone.
  injection Hanswers as <-. injection Htime as <-.
  unfold keys in Hk. rewrite map_to_list_singleton in Hk.
  apply list_elem_of_singleton in Hk. subst k.
  by rewrite lookup_singleton_eq in Hnone.
Qed.

Lemma ana_well_timed : well_timed [ana].
Proof.
  apply Forall_cons. split; [| apply Forall_nil].
  exists "00:00:05". split; [reflexivity |].
  exists "00", "00", "05". repeat split; try reflexivity. cbn. lia.
Qed.

Lemma stored_times_stay_clock_texts_witness :
  well_timed (users (post_api_submit cat_submission (world_of [ana] [])).2).
Proof.
  exact (stored_times_stay_clock_texts cat_submission (world_of [ana] [])
           cat_submission_times cat_submission_own ana_well_timed).
Defined.

Lemma submission_call_sequence_witness :
  calls (post_api_submit dog_submission (world_of [ana] [])).2
  = [ SelectAll QuestionsTable; SelectUserSingle "ana@example.org";
      UpdateUsers (SetScore 1 "00:00:08") (EmailEq "ana@example.org") ].
Proof.
  etrans.
  - exact (submission_call_sequence dog_submission "a" "na@example.org"
             ({[ "dog" := "perro" ]}) ({[ "dog" := Qc_of_Z 3000 ]})
             (world_of [ana] []) eq_refl eq_refl eq_refl eq_refl).
  - vm_compute. reflexivity.
Defined.

Lemma failed_lookup_inserts_witness :
  calls (post_api_submit dog_submission (world_of [ana] [false; true])).2
  = [ SelectAll QuestionsTable; SelectUserSingle "ana@example.org";
      InsertUser {| email := "ana@example.org"; number_of_correct_ans := 0;
                    time := Some "00:00:03"; rank := 0 |} ].
Proof.
  etrans.
  - exact (failed_lookup_inserts dog_submission "a" "na@example.org"
             ({[ "dog" := "perro" ]}) ({[ "dog" := Qc_of_Z 3000 ]})
             (world_of [ana] [false; true]) [] eq_refl eq_refl eq_refl
             eq_refl).
  - vm_compute. reflexivity.
Defined.

Lemma two_attempts_add_up_witness :
  users (post_api_submit dog_submission
           (post_api_submit cat_submission (world_of [ben] [])).2).2
  = [ ben;
      {| email := "ana@example.org"; number_of_correct_ans := 1;
         time := Some "00:00:08"; rank := 0 |} ].
Proof.
  etrans.
  - apply (two_attempts_add_up cat_submission dog_submission
             "a" "na@example.org"
             ({[ "cat" := "gato" ]}) ({[ "cat" := Qc_of_Z 5000 ]})
             ({[ "dog" := "perro" ]}) ({[ "dog" := Qc_of_Z 3000 ]})
             (world_of [ben] []));
      try reflexivity.
    + intros u Hu. apply list_elem_of_singleton in Hu. subst u.
      discriminate.
    + vm_compute. discriminate.
  - vm_compute. reflexivity.
Defined.

Lemma leaderboard_ignores_stored_ranks_witness :
  (get_api_data duration_leb evening "ana@example.org"
     (world_of [ana; ben] [])).1
  = (get_api_data duration_leb evening "ana@example.org"
       (world_of reranked [])).1.
Proof.
  exact (leaderboard_ignores_stored_ranks duration_leb evening
           "ana@example.org" (world_of [ana; ben] []) (world_of reranked [])
           eq_refl eq_refl eq_refl eq_refl).
Defined.

Lemma failed_store_call_surfaced_witness :
  post_api_submit cat_submission (world_of [ana] [true])
  = (Status500 "record store unavailable",
     logged (SelectAll QuestionsTable) [] (world_of [ana] [true]))
  /\ (post_api_submit cat_submission
        (world_of [ana] [false; false; true])).1
     = Status500 "record store unavailable".
Proof.
  split.
  - exact (proj1 (failed_store_call_surfaced cat_submission
                    "a" "na@example.org"
                    ({[ "cat" := "gato" ]}) ({[ "cat" := Qc_of_Z 5000 ]})
                    (world_of [ana] [true]) [] eq_refl eq_refl eq_refl)
                 eq_refl).
  - exact (proj1 (proj2 (failed_store_call_surfaced cat_submission
                           "a" "na@example.org"
                           ({[ "cat" := "gato" ]})
                           ({[ "cat" := Qc_of_Z 5000 ]})
                           (world_of [ana] [false; false; true]) []
                           eq_refl eq_refl eq_refl)
                        false eq_refl)).
Defined.

End FurtherSamples.
